(** * BikaMusic: the playback core of [main.py], embedded in Rocq

    The development follows [main.py]:
    - Python [str] values are sequences of Unicode code points ([list N]);
    - the two module-level dictionaries [mem_queue] and [mem_now] are finite
      maps keyed by the chat id;
    - every call that leaves the process (Telegram client, voice-call client,
      file system, the [yt-dlp] subprocess) is recorded in a trace, and its
      answer is given by a [World], which may depend on everything that
      happened before;
    - Python exceptions are results [Raise e]; [try/except Exception] is the
      combinator [try_except].

    What is left outside:
    - sending a text to the chat ([m.reply], [msg.edit_text]) is recorded and
      taken to succeed: delivery belongs to the transport;
    - the reads of the download directory ([os.listdir], then one
      [os.path.getmtime] for every [.mp3] name) are recorded as one event;
      each of them may raise;
    - handlers run one after the other. In [main.py] every handler writes the
      dictionaries in one stretch without an [await] that suspends in between
      (the append and [mem_now] in [cmd_play], the pop and [mem_now] in
      [cmd_skip], the two assignments of [cmd_stop]), so that what is proved
      about the dictionaries does not depend on this;
    - [cmd_start], [cmd_setup], [cmd_status] and [cmd_queue] never write the
      dictionaries and are not among the requests of a run; [on_startup],
      [on_shutdown] and the webhook are not modelled. *)

From Stdlib Require Import ZArith NArith String Ascii Lia DecimalString.
From stdpp Require Import gmap list.

Local Open Scope Z_scope.

(** ** Python strings *)

Abbreviation str := (list N).

(** An ASCII literal as a Python string. *)
Definition py (s : string) : str :=
  N_of_ascii <$> list_ascii_of_string s.

Module PyStr.

(** [s.startswith(p)] *)
Fixpoint startswith (s p : str) {struct p} : bool :=
  match p, s with
  | [], _ => true
  | c :: p', d :: s' => (c =? d)%N && startswith s' p'
  | _ :: _, [] => false
  end.

(** [s.endswith(p)] *)
Definition endswith (s p : str) : bool :=
  startswith (reverse s) (reverse p).

(** [str.isspace] on one character; the same set is what [\s] matches in a
    [re] pattern over [str]. *)
Definition isspace (c : N) : bool :=
  ((9 <=? c) && (c <=? 13) || (28 <=? c) && (c <=? 32)
   || (c =? 133) || (c =? 160) || (c =? 5760)
   || (8192 <=? c) && (c <=? 8202)
   || (c =? 8232) || (c =? 8233) || (c =? 8239) || (c =? 8287)
   || (c =? 12288))%N.

(** [s.lstrip()], [s.rstrip()], [s.strip()] *)
Fixpoint lstrip (s : str) : str :=
  match s with
  | c :: s' => if isspace c then lstrip s' else s
  | [] => []
  end.

Definition rstrip (s : str) : str := reverse (lstrip (reverse s)).

Definition strip (s : str) : str := rstrip (lstrip s).

(** The first whitespace-delimited word of [s] and what follows it. *)
Fixpoint span_word (s : str) : str * str :=
  match s with
  | c :: s' =>
      if isspace c then ([], s)
      else let '(w, r) := span_word s' in (c :: w, r)
  | [] => ([], [])
  end.

(** [s.split(maxsplit=1)]: at most two parts; the second part keeps its
    trailing white space. *)
Definition split_maxsplit1 (s : str) : list str :=
  match lstrip s with
  | [] => []
  | t =>
      let '(w, r) := span_word t in
      match lstrip r with
      | [] => [w]
      | r' => [w; r']
      end
  end.

(** [re.sub(r"\s+", " ", s)]: every maximal run of white space becomes one
    space. [in_run] tells that the previous character was white space,
    so that the run it belongs to has been replaced already. *)
Fixpoint sub_spaces_from (in_run : bool) (s : str) : str :=
  match s with
  | c :: s' =>
      if isspace c
      then (if in_run then sub_spaces_from true s'
            else 32%N :: sub_spaces_from true s')
      else c :: sub_spaces_from false s'
  | [] => []
  end.

Definition sub_spaces (s : str) : str := sub_spaces_from false s.

End PyStr.

(** ** Pure helpers of [main.py] *)

(** [normalize_music_query] *)
Definition normalize_music_query (text : str) : str :=
  PyStr.strip (PyStr.sub_spaces text).

(** [is_url] *)
Definition is_url (s : str) : bool :=
  PyStr.startswith s (py "http://") || PyStr.startswith s (py "https://").

Module OsPath.

(** [os.path.basename] (posix): what follows the last slash. *)
Fixpoint basename_from (acc s : str) : str :=
  match s with
  | c :: s' => if (c =? 47)%N then basename_from [] s'
               else basename_from (acc ++ [c]) s'
  | [] => acc
  end.

Definition basename (path : str) : str := basename_from [] path.

(** [os.path.join a b] (posix, two arguments). *)
Definition join (a b : str) : str :=
  if PyStr.startswith b (py "/") then b
  else if bool_decide (a = []) || PyStr.endswith a (py "/") then a ++ b
  else a ++ py "/" ++ b.

End OsPath.

(** [s.replace(c, "")] for a one-character [c]. *)
Definition remove_char (c : N) (s : str) : str :=
  List.filter (fun d => negb (d =? c)%N) s.

(** [safe_basename]: [None] and the empty path are both falsy. *)
Definition safe_basename (path : option str) : str :=
  match path with
  | None | Some [] => [8212%N]
  | Some p => remove_char 62 (remove_char 60 (OsPath.basename p))
  end.

(** ** The texts sent to the chat

    Each definition is the literal (or f-string) of the handler, code point by
    code point; ASCII runs are written as literals. *)

Module Text.

Definition not_group_play : str :=
  (py "VC stream " ++ [4096] ++ py " group/supergroup "
   ++ [4113; 4146; 4121; 4158; 4140; 4117; 4146] ++ py " "
   ++ [4126; 4143; 4150; 4152; 4117; 4139])%N.

Definition usage_play : str :=
  ([4129; 4126; 4143; 4150; 4152; 4117; 4156; 4143; 4117; 4143; 4150]
   ++ py ": <code>/play MusicName</code> " ++ [4126; 4141; 4143; 4151]
   ++ py " <code>/play URL</code>")%N.

Definition assistant_missing (link username : str) : str :=
  ([10060] ++ py " Assistant account "
   ++ [4121; 4123; 4158; 4141; 4126; 4145; 4152; 4117; 4139; 4171; 10; 10;
       10145; 65039]
   ++ py " Add/Invite: <a href=" ++ [34] ++ link ++ [34] ++ py ">"
   ++ username
   ++ py "</a>" ++ [10; 9989] ++ py " "
   ++ [4117; 4156; 4142; 4152; 4123; 4100; 4154] ++ py " Voice Chat "
   ++ [4118; 4157; 4100; 4151; 4154; 4117; 4156; 4142; 4152]
   ++ py " /play "
   ++ [4117; 4156; 4116; 4154; 4097; 4145; 4139; 4154; 4117; 4139])%N.

Definition searching : str :=
  ([128270] ++ py " " ++ [4123; 4158; 4140] ++ py "/"
   ++ [4118; 4145; 4140; 4154; 4113; 4143; 4112; 4154; 4116; 4145; 4117;
       4139; 4112; 4122; 4154; 8230])%N.

Definition resolve_failed (diagnostic : str) : str :=
  ([10060] ++ py " " ++ [4121; 4123; 4117; 4139] ++ py ": <code>"
   ++ diagnostic
   ++ py "</code>")%N.

Definition playing (name : str) : str :=
  ([9654; 65039] ++ py " Playing: <code>" ++ name ++ py "</code>")%N.

Definition join_failed (diagnostic : str) : str :=
  ([9888; 65039] ++ py " VC join/play " ++ [4121; 4123; 4117; 4139; 10;
       8226]
   ++ py " Error: <code>" ++ diagnostic ++ py "</code>" ++ [10; 10; 9989]
   ++ py " " ++ [4101; 4101; 4154; 4123; 4116; 4154] ++ py ":" ++ [10]
   ++ py "1) Voice Chat "
   ++ [4118; 4157; 4100; 4151; 4154; 4113; 4140; 4152; 4124; 4140; 4152;
       10]
   ++ py "2) Assistant account " ++ [4096; 4141; 4143] ++ py " group "
   ++ [4113; 4146] ++ py " add " ++ [4113; 4140; 4152; 4124; 4140; 4152;
       10]
   ++ py "3) Bot/assistant " ++ [4096; 4141; 4143] ++ py " VC join "
   ++ [4124; 4143; 4117; 4154; 4097; 4157; 4100; 4151; 4154; 4123; 4158;
       4141; 4124; 4140; 4152])%N.

Definition queued (name : str) : str :=
  ([10133] ++ py " Queued: <code>" ++ name ++ py "</code>")%N.

Definition not_group : str :=
  ([4114; 4142] ++ py " command " ++ [4096; 4141; 4143] ++ py " group "
   ++ [4113; 4146; 4121; 4158; 4140; 4117; 4146] ++ py " "
   ++ [4126; 4143; 4150; 4152; 4117; 4139])%N.

Definition no_queue : str :=
  (py "Queue " ++ [4121; 4123; 4158; 4141; 4117; 4139])%N.

Definition stopped_queue_empty : str :=
  ([9209] ++ py " Stopped (queue empty)")%N.

Definition skipped : str :=
  ([9197] ++ py " Skipped")%N.

Definition next_failed (diagnostic : str) : str :=
  ([9888; 65039] ++ py " Next play " ++ [4121; 4123] ++ py ": <code>"
   ++ diagnostic ++ py "</code>")%N.

Definition stopped_cleared : str :=
  ([9209] ++ py " Stopped & cleared queue")%N.

End Text.

(** ** Exceptions, events and the outside world *)

(** An exception object. [RuntimeError] is the one class [main.py] raises
    itself; [ExternalError] stands for whatever a library call raises
    ([CalledProcessError], [OSError], the errors of the Telegram and
    voice-call clients), of which the handlers only ever read [str(e)].
    All of them derive from [Exception]. *)
Inductive exn : Type :=
| RuntimeError (msg : str)
| ExternalError (text : str).

(** [str(e)] *)
Definition str_of_exn (e : exn) : str :=
  match e with
  | RuntimeError msg => msg
  | ExternalError text => text
  end.

Inductive result (A : Type) : Type :=
| Ok (a : A)
| Raise (e : exn).
Arguments Ok {A} a.
Arguments Raise {A} e.

(** [m.chat] and the message handed to a command handler. *)
Record Chat : Type := { chat_id : Z; chat_type : str }.
Record Message : Type := { m_chat : option Chat; m_text : option str }.

(** The calls that leave the process, in the order they are issued. *)
Inductive event : Type :=
| EvReply (m : Message) (text : str)            (* m.reply(text) *)
| EvEditText (m : Message) (text : str)         (* edit_text on that reply *)
| EvGetChat (chat : Z)                          (* assistant.get_chat *)
| EvGetChatMember (chat user : Z)               (* assistant.get_chat_member *)
| EvMakedirs (dir : str)                        (* os.makedirs *)
| EvCheckCall (cmd : list str)                  (* subprocess.check_call *)
| EvListdir (dir : str)                         (* os.listdir, getmtime *)
| EvChangeStream (chat : Z) (file_path : str)   (* calls.change_stream *)
| EvJoinGroupCall (chat : Z) (file_path : str)  (* calls.join_group_call *)
| EvLeaveGroupCall (chat : Z)                   (* calls.leave_group_call *)
| EvRemove (path : str).                        (* os.remove *)

(** The operations on the voice-call client [calls]. *)
Definition is_call_op (ev : event) : bool :=
  match ev with
  | EvChangeStream _ _ | EvJoinGroupCall _ _ | EvLeaveGroupCall _ => true
  | _ => false
  end.

(** The steps of the resolver [ytdlp_to_mp3]. *)
Definition is_resolver_op (ev : event) : bool :=
  match ev with
  | EvMakedirs _ | EvCheckCall _ | EvListdir _ => true
  | _ => false
  end.

(** What the outside answers. Every answer may depend on the whole history of
    calls issued so far; [None] means that the call returns normally.
    Sending a text to the chat is the transport's business and is taken to
    succeed. A read of the directory or of a modification time answers with
    an error ([w_listdir_error], [w_getmtime_error]) or, when there is none,
    with a value ([w_listdir], [w_getmtime]). *)
Record World : Type := {
  ASSISTANT_USERNAME : str;
  w_get_chat : list event -> Z -> option exn;
  w_get_chat_member : list event -> Z -> Z -> option exn;
  w_makedirs : list event -> str -> option exn;
  w_check_call : list event -> list str -> option exn;
  w_listdir_error : list event -> str -> option exn;
  w_listdir : list event -> str -> list str;
  w_getmtime_error : list event -> str -> option exn;
  w_getmtime : list event -> str -> Z;
  w_change_stream : list event -> Z -> str -> option exn;
  w_join_group_call : list event -> Z -> str -> option exn;
  w_leave_group_call : list event -> Z -> option exn;
  w_remove : list event -> str -> option exn
}.

(** [ASSISTANT_LINK = f"https://t.me/{ASSISTANT_USERNAME[1:]}"] *)
Definition ASSISTANT_LINK (w : World) : str :=
  py "https://t.me/" ++ drop 1 (ASSISTANT_USERNAME w).

(** ** The state of the process *)

Record St : Type := {
  mem_queue : gmap Z (list str);      (* chat_id -> [file_path, ...] *)
  mem_now : gmap Z (option str);      (* chat_id -> current file path *)
  ASSISTANT_ID : option Z;            (* set on startup *)
  trace : list event
}.

Definition set_queue (chat : Z) (q : list str) (s : St) : St :=
  {| mem_queue := <[chat := q]> (mem_queue s); mem_now := mem_now s;
     ASSISTANT_ID := ASSISTANT_ID s; trace := trace s |}.

Definition set_now (chat : Z) (cur : option str) (s : St) : St :=
  {| mem_queue := mem_queue s; mem_now := <[chat := cur]> (mem_now s);
     ASSISTANT_ID := ASSISTANT_ID s; trace := trace s |}.

Definition add_event (ev : event) (s : St) : St :=
  {| mem_queue := mem_queue s; mem_now := mem_now s;
     ASSISTANT_ID := ASSISTANT_ID s; trace := trace s ++ [ev] |}.

Definition add_events (evs : list event) (s : St) : St :=
  {| mem_queue := mem_queue s; mem_now := mem_now s;
     ASSISTANT_ID := ASSISTANT_ID s; trace := trace s ++ evs |}.

(** [mem_queue.get(chat, [])] and [mem_now.get(chat)] *)
Definition get_queue (s : St) (chat : Z) : list str :=
  default [] (mem_queue s !! chat).

Definition get_now (s : St) (chat : Z) : option str :=
  default None (mem_now s !! chat).

(** The state after [on_startup]: both dictionaries empty. *)
Definition init (aid : option Z) : St :=
  {| mem_queue := ∅; mem_now := ∅; ASSISTANT_ID := aid; trace := [] |}.

(** ** A state-and-exception monad for the handlers *)

Definition M (A : Type) : Type := St -> result A * St.

Definition ret {A} (a : A) : M A := fun s => (Ok a, s).

Definition bind {A B} (m : M A) (k : A -> M B) : M B :=
  fun s => match m s with
           | (Ok a, s') => k a s'
           | (Raise e, s') => (Raise e, s')
           end.

Definition raise {A} (e : exn) : M A := fun s => (Raise e, s).

(** [try: m  except Exception as e: h e] *)
Definition try_except {A} (m : M A) (h : exn -> M A) : M A :=
  fun s => match m s with
           | (Ok a, s') => (Ok a, s')
           | (Raise e, s') => h e s'
           end.

(** [try: x = m  except Exception as e: ...] seen from the code that follows:
    the outcome of [m] as a value. *)
Definition attempt {A} (m : M A) : M (result A) :=
  fun s => let '(r, s') := m s in (Ok r, s').

Definition get_state : M St := fun s => (Ok s, s).

Definition modify (f : St -> St) : M unit := fun s => (Ok tt, f s).

(** An outside call: it is recorded, then it returns or raises as the world
    says, given the history before it. *)
Definition call (ev : event) (answer : list event -> option exn) : M unit :=
  fun s => match answer (trace s) with
           | None => (Ok tt, add_event ev s)
           | Some e => (Raise e, add_event ev s)
           end.

(** A call that cannot fail in this model (texts sent to the chat). *)
Definition emit (ev : event) : M unit := modify (add_event ev).

Declare Scope m_scope.
Delimit Scope m_scope with M.
Notation "x <- m ;; k" := (bind m (fun x => k))
  (at level 100, m at next level, right associativity) : m_scope.
Notation "m ;; k" := (bind m (fun _ => k))
  (at level 100, right associativity) : m_scope.
Local Open Scope m_scope.

(** [for x in l: body x] *)
Fixpoint for_each {A} (l : list A) (body : A -> M unit) : M unit :=
  match l with
  | [] => ret tt
  | x :: l' => body x ;; for_each l' body
  end.

(** [files.sort(key=key, reverse=True)]: stable, largest key first. *)
Fixpoint insert_desc {A} (key : A -> Z) (x : A) (l : list A) : list A :=
  match l with
  | [] => [x]
  | y :: l' => if key y <=? key x then x :: l else y :: insert_desc key x l'
  end.

Definition sort_desc {A} (key : A -> Z) (l : list A) : list A :=
  foldr (insert_desc key) [] l.

(** ** The resolver and the handlers of [main.py] *)

Definition tg_music_dir : str := py "/tmp/tg_music".

Definition outtmpl : str := py "/tmp/tg_music/%(title).80s_%(id)s.%(ext)s".

(** What is handed to [yt-dlp]: the input itself when it is a URL, a
    one-result search otherwise. *)
Definition ytdlp_target (query_or_url : str) : str :=
  if is_url query_or_url then query_or_url
  else py "ytsearch1:" ++ query_or_url.

Definition ytdlp_cmd (query_or_url : str) : list str :=
  [py "yt-dlp"; py "-x"; py "--audio-format"; py "mp3"; py "--no-playlist";
   py "-o"; outtmpl; ytdlp_target query_or_url].

(** [m.chat and m.chat.type in ("group", "supergroup")] *)
Definition in_group (m : Message) : option Z :=
  match m_chat m with
  | Some c =>
      if bool_decide (chat_type c = py "group")
         || bool_decide (chat_type c = py "supergroup")
      then Some (chat_id c) else None
  | None => None
  end.

(** [(m.text or "").split(maxsplit=1)] *)
Definition parts_of (m : Message) : list str :=
  PyStr.split_maxsplit1 (default [] (m_text m)).

Section Handlers.

Variable w : World.

(** The [.mp3] names of the directory, newest first, as [ytdlp_to_mp3]
    computes them from a listing taken after history [h]. *)
Definition mp3_files (h : list event) (names : list str) : list str :=
  sort_desc (fun x => w_getmtime w h (OsPath.join tg_music_dir x))
            (List.filter (fun f => PyStr.endswith f (py ".mp3")) names).

(** [files.sort(key=...)] computes the key of every name before it compares
    any two, in the order of the list: the first [os.path.getmtime] that
    raises ends the sort, and the resolver, with its error. *)
Fixpoint sort_key_error (h : list event) (files : list str) : option exn :=
  match files with
  | [] => None
  | f :: files' =>
      match w_getmtime_error w h (OsPath.join tg_music_dir f) with
      | Some e => Some e
      | None => sort_key_error h files'
      end
  end.

Definition ytdlp_to_mp3 (query_or_url : str) : M str :=
  call (EvMakedirs tg_music_dir) (fun h => w_makedirs w h tg_music_dir) ;;
  call (EvCheckCall (ytdlp_cmd query_or_url))
       (fun h => w_check_call w h (ytdlp_cmd query_or_url)) ;;
  call (EvListdir tg_music_dir) (fun h => w_listdir_error w h tg_music_dir) ;;
  s <- get_state ;;
  let names := w_listdir w (trace s) tg_music_dir in
  match sort_key_error (trace s)
          (List.filter (fun f => PyStr.endswith f (py ".mp3")) names) with
  | Some e => raise e
  | None =>
      match mp3_files (trace s) names with
      | [] => raise (RuntimeError (py "No mp3 produced"))
      | f :: _ => ret (OsPath.join tg_music_dir f)
      end
  end.

Definition cleanup_file (path : str) : M unit :=
  try_except (call (EvRemove path) (fun h => w_remove w h path))
             (fun _ => ret tt).

Definition ensure_peer (chat : Z) : M unit :=
  try_except (call (EvGetChat chat) (fun h => w_get_chat w h chat))
             (fun _ => ret tt).

Definition assistant_in_group (chat : Z) : M bool :=
  s <- get_state ;;
  match ASSISTANT_ID s with
  | None | Some 0 => ret false
  | Some aid =>
      try_except
        (ensure_peer chat ;;
         call (EvGetChatMember chat aid)
              (fun h => w_get_chat_member w h chat aid) ;;
         ret true)
        (fun _ => ret false)
  end.

Definition ensure_join_and_play (chat : Z) (file_path : str) : M unit :=
  ensure_peer chat ;;
  try_except
    (call (EvChangeStream chat file_path)
          (fun h => w_change_stream w h chat file_path))
    (fun _ =>
       call (EvJoinGroupCall chat file_path)
            (fun h => w_join_group_call w h chat file_path)).

(** [try: await calls.leave_group_call(chat)  except Exception: pass] *)
Definition leave_quietly (chat : Z) : M unit :=
  try_except (call (EvLeaveGroupCall chat)
                   (fun h => w_leave_group_call w h chat))
             (fun _ => ret tt).

Definition play_next (chat : Z) : M unit :=
  s <- get_state ;;
  match get_queue s chat with
  | [] =>
      modify (set_now chat None) ;;
      leave_quietly chat
  | file_path :: _ =>
      modify (set_now chat (Some file_path)) ;;
      ensure_join_and_play chat file_path
  end.

(** The last part of [cmd_play], from the append to [mem_queue] on: what
    the handler does once the resolver has returned [file_path]. *)
Definition cmd_play_enqueue (m : Message) (chat : Z) (file_path : str)
  : M unit :=
  (* mem_queue.setdefault(chat, []).append(file_path) *)
  s <- get_state ;;
  modify (set_queue chat (get_queue s chat ++ [file_path])) ;;
  s <- get_state ;;
  if (length (get_queue s chat) =? 1)%nat then
    try_except
      (play_next chat ;;
       emit (EvEditText m (Text.playing (safe_basename (Some file_path)))))
      (fun e =>
         emit (EvEditText m (Text.join_failed (take 180 (str_of_exn e)))))
  else
    emit (EvEditText m (Text.queued (safe_basename (Some file_path)))).

Definition cmd_play (m : Message) : M unit :=
  match in_group m with
  | None => emit (EvReply m Text.not_group_play)
  | Some chat =>
      match parts_of m with
      | _ :: arg :: _ =>
          (* assistant presence check BEFORE downloading *)
          present <- assistant_in_group chat ;;
          if negb present then
            emit (EvReply m (Text.assistant_missing (ASSISTANT_LINK w)
                                                    (ASSISTANT_USERNAME w)))
          else
            let query := normalize_music_query arg in
            emit (EvReply m Text.searching) ;;
            resolved <- attempt (ytdlp_to_mp3 query) ;;
            match resolved with
            | Raise e =>
                emit (EvEditText m
                        (Text.resolve_failed (take 180 (str_of_exn e))))
            | Ok file_path => cmd_play_enqueue m chat file_path
            end
      | _ => emit (EvReply m Text.usage_play)
      end
  end.

Definition cmd_skip (m : Message) : M unit :=
  match in_group m with
  | None => emit (EvReply m Text.not_group)
  | Some chat =>
      s <- get_state ;;
      match get_queue s chat with
      | [] => emit (EvReply m Text.no_queue)
      | cur :: q =>
          (* cur = q.pop(0): the list stored in mem_queue loses its head *)
          modify (set_queue chat q) ;;
          cleanup_file cur ;;
          match q with
          | [] =>
              modify (set_now chat None) ;;
              leave_quietly chat ;;
              emit (EvReply m Text.stopped_queue_empty)
          | _ :: _ =>
              try_except
                (play_next chat ;;
                 emit (EvReply m Text.skipped))
                (fun e =>
                   emit (EvReply m
                           (Text.next_failed (take 180 (str_of_exn e)))))
          end
      end
  end.

Definition cmd_stop (m : Message) : M unit :=
  match in_group m with
  | None => emit (EvReply m Text.not_group)
  | Some chat =>
      s <- get_state ;;
      for_each (get_queue s chat) cleanup_file ;;
      modify (set_queue chat []) ;;
      modify (set_now chat None) ;;
      leave_quietly chat ;;
      emit (EvReply m Text.stopped_cleared)
  end.

(** ** Sequences of requests *)

Inductive request : Type :=
| ReqPlay (m : Message)
| ReqSkip (m : Message)
| ReqStop (m : Message)
| ReqAdvance (chat : Z).        (* [play_next] on its own *)

Definition handle (r : request) : M unit :=
  match r with
  | ReqPlay m => cmd_play m
  | ReqSkip m => cmd_skip m
  | ReqStop m => cmd_stop m
  | ReqAdvance chat => play_next chat
  end.

(** One request served to the end; as in [telegram_webhook], an exception
    that escapes the handler is dropped and the state stays as it was left. *)
Definition serve (s : St) (r : request) : St := snd (handle r s).

Definition run (rs : list request) (s : St) : St := foldl serve s rs.

End Handlers.

(** ** The spec's view of the stored state

    [mem_queue] keeps the item that is playing at the head of the list; what
    the spec calls pending is what follows it. *)

Definition current (s : St) (chat : Z) : list str :=
  option_list (get_now s chat).

Definition pending (s : St) (chat : Z) : list str :=
  drop 1 (get_queue s chat).

(** The calls issued between two states. *)
Definition new_events (s s' : St) : list event :=
  drop (length (trace s)) (trace s').

(** [q'] is [q] with one path appended only if that path was not in [q]. *)
Definition adds_only_fresh (q q' : list str) : bool :=
  match reverse q' with
  | p :: r => if bool_decide (reverse r = q) then bool_decide (p ∉ q) else true
  | [] => true
  end.

(** Along the run of [rs] from [s], no path enters the queue of [chat] while
    that queue already holds it. *)
Fixpoint fresh_run (w : World) (chat : Z) (rs : list request) (s : St) : bool :=
  match rs with
  | [] => true
  | r :: rs' =>
      adds_only_fresh (get_queue s chat) (get_queue (serve w s r) chat)
      && fresh_run w chat rs' (serve w s r)
  end.

(** The operations of the spec's GroupQueue, as changes of the two
    dictionaries; every request amounts to one of them (see [serve_is_op]). *)
Inductive queue_op : Type :=
| QNone
| QEnqueue (chat : Z) (p : str)
| QSkip (chat : Z)
| QStop (chat : Z)
| QAdvance (chat : Z).

Definition apply_op (op : queue_op) (s : St) : St :=
  match op with
  | QNone => s
  | QEnqueue chat p =>
      match get_queue s chat with
      | [] => set_now chat (Some p) (set_queue chat [p] s)
      | q => set_queue chat (q ++ [p]) s
      end
  | QSkip chat =>
      match get_queue s chat with
      | [] => s
      | _ :: q => set_now chat (head q) (set_queue chat q s)
      end
  | QStop chat => set_now chat None (set_queue chat [] s)
  | QAdvance chat => set_now chat (head (get_queue s chat)) s
  end.

(** The current item, when there is one, is the head of the stored queue. *)
Definition now_is_head (s : St) : Prop :=
  forall chat, get_now s chat = head (get_queue s chat).

(** The states the process can be in: those a sequence of requests leads to
    from the state after startup. *)
Definition reachable (w : World) (s : St) : Prop :=
  exists aid rs, s = run w rs (init aid).

(** ** Worlds and messages for concrete runs *)

Module Sample.

Definition group_message (chat : Z) (text : string) : Message :=
  {| m_chat := Some {| chat_id := chat; chat_type := py "supergroup" |};
     m_text := Some (py text) |}.

(** Every call succeeds; the only [.mp3] in the directory is [a.mp3]. *)
Definition calm : World :=
  {| ASSISTANT_USERNAME := py "@BikaAssistant";
     w_get_chat := fun _ _ => None;
     w_get_chat_member := fun _ _ _ => None;
     w_makedirs := fun _ _ => None;
     w_check_call := fun _ _ => None;
     w_listdir_error := fun _ _ => None;
     w_listdir := fun _ _ => [py "a.mp3"; py "notes.txt"];
     w_getmtime_error := fun _ _ => None;
     w_getmtime := fun _ _ => 0;
     w_change_stream := fun _ _ _ => None;
     w_join_group_call := fun _ _ _ => None;
     w_leave_group_call := fun _ _ => None;
     w_remove := fun _ _ => None |}.

(** As [calm], but every download leaves a file of its own, named by a
    letter that stands for the number of calls made so far. *)
Definition growing : World :=
  {| ASSISTANT_USERNAME := py "@BikaAssistant";
     w_get_chat := fun _ _ => None;
     w_get_chat_member := fun _ _ _ => None;
     w_makedirs := fun _ _ => None;
     w_check_call := fun _ _ => None;
     w_listdir_error := fun _ _ => None;
     w_listdir := fun h _ => [(N.of_nat (length h) + 60)%N :: py ".mp3"];
     w_getmtime_error := fun _ _ => None;
     w_getmtime := fun _ _ => 0;
     w_change_stream := fun _ _ _ => None;
     w_join_group_call := fun _ _ _ => None;
     w_leave_group_call := fun _ _ => None;
     w_remove := fun _ _ => None |}.

(** As [calm], but the assistant account is not in any group. *)
Definition absent : World :=
  {| ASSISTANT_USERNAME := py "@BikaAssistant";
     w_get_chat := fun _ _ => None;
     w_get_chat_member :=
       fun _ _ _ => Some (ExternalError (py "USER_NOT_PARTICIPANT"));
     w_makedirs := fun _ _ => None;
     w_check_call := fun _ _ => None;
     w_listdir_error := fun _ _ => None;
     w_listdir := fun _ _ => [py "a.mp3"];
     w_getmtime_error := fun _ _ => None;
     w_getmtime := fun _ _ => 0;
     w_change_stream := fun _ _ _ => None;
     w_join_group_call := fun _ _ _ => None;
     w_leave_group_call := fun _ _ => None;
     w_remove := fun _ _ => None |}.


(** As [calm], but no voice chat is open: neither change nor join works. *)
Definition no_voice_chat : World :=
  {| ASSISTANT_USERNAME := py "@BikaAssistant";
     w_get_chat := fun _ _ => None;
     w_get_chat_member := fun _ _ _ => None;
     w_makedirs := fun _ _ => None;
     w_check_call := fun _ _ => None;
     w_listdir_error := fun _ _ => None;
     w_listdir := fun _ _ => [py "a.mp3"];
     w_getmtime_error := fun _ _ => None;
     w_getmtime := fun _ _ => 0;
     w_change_stream := fun _ _ _ => Some (ExternalError (py "not in call"));
     w_join_group_call :=
       fun _ _ _ => Some (ExternalError (py "No active group call"));
     w_leave_group_call := fun _ _ => None;
     w_remove := fun _ _ => None |}.

(** An older [old.mp3] whose time stamp is later than that of the file the
    download has just written, [new.mp3]. *)
Definition stale : World :=
  {| ASSISTANT_USERNAME := py "@BikaAssistant";
     w_get_chat := fun _ _ => None;
     w_get_chat_member := fun _ _ _ => None;
     w_makedirs := fun _ _ => None;
     w_check_call := fun _ _ => None;
     w_listdir_error := fun _ _ => None;
     w_listdir := fun _ _ => [py "new.mp3"; py "old.mp3"];
     w_getmtime_error := fun _ _ => None;
     w_getmtime :=
       fun _ f => if bool_decide (f = py "/tmp/tg_music/old.mp3")
                  then 20 else 10;
     w_change_stream := fun _ _ _ => None;
     w_join_group_call := fun _ _ _ => None;
     w_leave_group_call := fun _ _ => None;
     w_remove := fun _ _ => None |}.

(** The download works, but the one [.mp3] name of the directory is a link
    to a file that is gone: its modification time cannot be read. *)
Definition dangling : World :=
  {| ASSISTANT_USERNAME := py "@BikaAssistant";
     w_get_chat := fun _ _ => None;
     w_get_chat_member := fun _ _ _ => None;
     w_makedirs := fun _ _ => None;
     w_check_call := fun _ _ => None;
     w_listdir_error := fun _ _ => None;
     w_listdir := fun _ _ => [py "ghost.mp3"];
     w_getmtime_error :=
       fun _ f =>
         Some (ExternalError
                 (py "[Errno 2] No such file or directory: '" ++ f ++ py "'"));
     w_getmtime := fun _ _ => 0;
     w_change_stream := fun _ _ _ => None;
     w_join_group_call := fun _ _ _ => None;
     w_leave_group_call := fun _ _ => None;
     w_remove := fun _ _ => None |}.



(** Two requests for the same song, one after the other. *)
Definition same_song_twice : St :=
  run calm [ReqPlay (group_message 7 "/play song");
            ReqPlay (group_message 7 "/play song")] (init (Some 5)).

(** One song playing; one song playing and one waiting. *)
Definition one_queued : St :=
  run calm [ReqPlay (group_message 7 "/play song")] (init (Some 5)).

Definition two_queued : St := same_song_twice.

Definition two_songs : list request :=
  [ReqPlay (group_message 7 "/play one");
   ReqPlay (group_message 7 "/play two")].

(** Two songs queued, the first one skipped, a third one queued. *)
Definition three_songs : list request :=
  [ReqPlay (group_message 7 "/play one");
   ReqPlay (group_message 7 "/play two");
   ReqSkip (group_message 7 "/skip");
   ReqPlay (group_message 7 "/play three")].

End Sample.

(** ** The handlers that only report

    [cmd_start], [cmd_setup], [cmd_status] and [cmd_queue] read the
    dictionaries and answer with a text. *)

Module InfoText.

Definition start (link username : str) : str :=
  ([127925] ++ py " <b>Bika Music " ++ [8212]
   ++ py " Group Voice Chat Music Bot</b>" ++ [10; 10] ++ py "Commands:"
   ++ [10; 8226] ++ py " <code>/setup</code> " ++ [8212]
   ++ py " setup guide" ++ [10; 8226] ++ py " <code>/status</code> "
   ++ [8212] ++ py " "
   ++ [4101; 4101; 4154; 4102; 4145; 4152; 4123; 4116; 4154; 10; 8226]
   ++ py " <code>/play MusicName</code> " ++ [8212] ++ py " VC "
   ++ [4113; 4146] ++ py " stream" ++ [10; 8226]
   ++ py " <code>/play URL</code> " ++ [8212] ++ py " URL stream"
   ++ [10; 8226] ++ py " <code>/skip</code> " ++ [8212] ++ py " "
   ++ [4116; 4145; 4140; 4096; 4154; 4112; 4101; 4154; 4117; 4143; 4114;
       4154; 10; 8226]
   ++ py " <code>/stop</code> " ++ [8212] ++ py " " ++ [4123; 4117; 4154]
   ++ py " + queue " ++ [4118; 4155; 4096; 4154; 10; 8226]
   ++ py " <code>/queue</code> " ++ [8212] ++ py " "
   ++ [4101; 4140; 4123; 4100; 4154; 4152; 4096; 4156; 4106; 4151; 4154;
       10; 10; 9888; 65039]
   ++ py " Voice Chat " ++ [4096; 4141; 4143] ++ py " "
   ++ [4129; 4123; 4100; 4154; 4118; 4157; 4100; 4151; 4154; 4113; 4140;
       4152; 4123; 4121; 4122; 4154; 10; 8505; 65039]
   ++ py " Assistant: <a href=" ++ [34] ++ link ++ [34] ++ py ">"
   ++ username ++ py "</a> " ++ [4096; 4141; 4143] ++ py " group "
   ++ [4113; 4146] ++ py " add/invite "
   ++ [4124; 4143; 4117; 4154; 4113; 4140; 4152; 4117; 4139])%N.

Definition setup (link username : str) : str :=
  ([128736] ++ py " <b>Setup (Group Voice Chat)</b>" ++ [10; 10]
   ++ py "1) Group " ++ [4113; 4146; 4121; 4158; 4140]
   ++ py " <b>Voice Chat</b> " ++ [4096; 4141; 4143] ++ py " "
   ++ [4118; 4157; 4100; 4151; 4154; 4117; 4139; 10]
   ++ py "2) Assistant account " ++ [4096; 4141; 4143] ++ py " group "
   ++ [4113; 4146] ++ py " add/invite "
   ++ [4124; 4143; 4117; 4154; 4117; 4139] ++ py ": <a href=" ++ [34]
   ++ link ++ [34] ++ py ">" ++ username ++ py "</a>" ++ [10] ++ py "3) "
   ++ [4117; 4156; 4142; 4152; 4123; 4100; 4154]
   ++ py " <code>/play songname</code> "
   ++ [4126; 4143; 4150; 4152; 4117; 4139; 10; 10; 128204]
   ++ py " Note: Bot " ++ [4096] ++ py " user account "
   ++ [4096; 4141; 4143] ++ py " auto-add "
   ++ [4121; 4124; 4143; 4117; 4154; 4116; 4141; 4143; 4100; 4154; 4117;
       4139]
   ++ py " (Telegram limitation)")%N.

Definition status (answer queue_length name : str) : str :=
  ([128270] ++ py " <b>Status</b>" ++ [10; 8226]
   ++ py " Assistant in group: " ++ answer ++ [10; 8226]
   ++ py " Queue length: <b>" ++ queue_length ++ py "</b>" ++ [10; 8226]
   ++ py " Now playing: <code>" ++ name ++ py "</code>" ++ [10])%N.

Definition status_yes : str :=
  ([9989] ++ py " Yes")%N.

Definition status_no : str :=
  ([10060] ++ py " No")%N.

Definition status_hint (link username : str) : str :=
  ([10; 10145; 65039] ++ py " Assistant " ++ [4096; 4141; 4143]
   ++ py " group " ++ [4113; 4146] ++ py " add "
   ++ [4124; 4143; 4117; 4154; 4117; 4139] ++ py ":" ++ [10; 8226]
   ++ py " <a href=" ++ [34] ++ link ++ [34] ++ py ">" ++ username
   ++ py "</a>" ++ [10; 4117; 4156; 4142; 4152; 4123; 4100; 4154]
   ++ py " Voice Chat "
   ++ [4118; 4157; 4100; 4151; 4154; 4117; 4156; 4142; 4152]
   ++ py " /play " ++ [4126; 4143; 4150; 4152; 4117; 4139; 4171])%N.

Definition queue_header : str :=
  ([127926] ++ py " <b>Queue</b> (Top 20)")%N.

Definition prefix_first : str :=
  ([9654; 65039] ++ py " ")%N.

Definition prefix_other : str :=
  ([8226] ++ py " ")%N.

Definition queue_line (prefix index name : str) : str :=
  (prefix ++ index ++ py ". <code>" ++ name ++ py "</code>")%N.

End InfoText.

(** [str(n)] for a non-negative integer: its decimal digits. *)
Definition str_of_nat (n : nat) : str :=
  py (NilEmpty.string_of_uint (Nat.to_uint n)).

(** [sep.join(l)] *)
Fixpoint str_join (sep : str) (l : list str) : str :=
  match l with
  | [] => []
  | [x] => x
  | x :: l' => x ++ sep ++ str_join sep l'
  end.

(** The lines [cmd_queue] builds in its loop over [enumerate(q[:20], 1)]:
    [index] is the number of the first item of [q]. *)
Fixpoint queue_lines_from (index : nat) (q : list str) : list str :=
  match q with
  | [] => []
  | p :: q' =>
      InfoText.queue_line
        (if (index =? 1)%nat then InfoText.prefix_first
         else InfoText.prefix_other)
        (str_of_nat index) (safe_basename (Some p))
      :: queue_lines_from (S index) q'
  end.

Definition queue_lines (q : list str) : list str :=
  queue_lines_from 1 (take 20 q).

Definition cmd_start (w : World) (m : Message) : M unit :=
  emit (EvReply m (InfoText.start (ASSISTANT_LINK w) (ASSISTANT_USERNAME w))).

Definition cmd_setup (w : World) (m : Message) : M unit :=
  match in_group m with
  | None => emit (EvReply m Text.not_group)
  | Some _ =>
      emit (EvReply m (InfoText.setup (ASSISTANT_LINK w)
                                      (ASSISTANT_USERNAME w)))
  end.

Definition cmd_status (w : World) (m : Message) : M unit :=
  match in_group m with
  | None => emit (EvReply m Text.not_group)
  | Some chat =>
      present <- assistant_in_group w chat ;;
      s <- get_state ;;
      let txt :=
        InfoText.status
          (if present then InfoText.status_yes else InfoText.status_no)
          (str_of_nat (length (get_queue s chat)))
          (safe_basename (get_now s chat)) in
      emit (EvReply m
              (if negb present
               then txt ++ InfoText.status_hint (ASSISTANT_LINK w)
                                                (ASSISTANT_USERNAME w)
               else txt))
  end.

Definition cmd_queue (w : World) (m : Message) : M unit :=
  match in_group m with
  | None => emit (EvReply m Text.not_group)
  | Some chat =>
      s <- get_state ;;
      match get_queue s chat with
      | [] => emit (EvReply m Text.no_queue)
      | q => emit (EvReply m (str_join [10%N]
                                (InfoText.queue_header :: queue_lines q)))
      end
  end.

(** ** The assistant's user name, from the environment

    [os.getenv("ASSISTANT_USERNAME", "@BikaAssistant").strip()], with an
    at-sign put in front when there is none. *)
Definition assistant_username_of (env : option str) : str :=
  let name := PyStr.strip (default (py "@BikaAssistant") env) in
  if PyStr.startswith name (py "@") then name else py "@" ++ name.

(** ** What a handler may do

    The calls a handler is seen to issue, as predicates on events; they are
    what the theorems on [cmd_play], [cmd_skip] and [cmd_stop] below are
    stated with. *)

(** [ASSISTANT_ID] is truthy: set, and not zero. *)
Definition has_assistant_id (s : St) : Prop :=
  match ASSISTANT_ID s with
  | None | Some 0 => False
  | Some _ => True
  end.

(** [p] is something the resolver can return. *)
Definition resolved (w : World) (p : str) : Prop :=
  exists query s, fst (ytdlp_to_mp3 w query s) = Ok p.

(** What [cmd_play] may issue for the message [m] from the state [s]. *)
Definition play_may_issue (m : Message) (s : St) (ev : event) : Prop :=
  match ev with
  | EvReply m' _ => m' = m
  | EvEditText m' _ => m' = m /\ has_assistant_id s
  | EvGetChat c | EvGetChatMember c _
  | EvChangeStream c _ | EvJoinGroupCall c _ =>
      in_group m = Some c /\ has_assistant_id s
  | EvMakedirs d | EvListdir d => d = tg_music_dir /\ has_assistant_id s
  | EvCheckCall cmd =>
      has_assistant_id s
      /\ exists q, cmd = ytdlp_cmd q /\ q <> []
                   /\ normalize_music_query q = q
  | EvLeaveGroupCall _ | EvRemove _ => False
  end.

(** What [cmd_skip] may issue. *)
Definition skip_may_issue (m : Message) (s : St) (ev : event) : Prop :=
  match ev with
  | EvReply m' _ => m' = m
  | EvRemove p =>
      exists c, in_group m = Some c /\ head (get_queue s c) = Some p
  | EvLeaveGroupCall c =>
      in_group m = Some c /\ length (get_queue s c) = 1%nat
  | EvGetChat c =>
      in_group m = Some c /\ (2 <= length (get_queue s c))%nat
  | EvChangeStream c p | EvJoinGroupCall c p =>
      in_group m = Some c /\ get_queue s c !! 1%nat = Some p
  | _ => False
  end.

(** What [cmd_stop] may issue. *)
Definition stop_may_issue (m : Message) (s : St) (ev : event) : Prop :=
  match ev with
  | EvReply m' _ => m' = m
  | EvRemove p => exists c, in_group m = Some c /\ p ∈ get_queue s c
  | EvLeaveGroupCall c => in_group m = Some c
  | _ => False
  end.

(** The chat a queue operation writes to. *)
Definition op_chat (op : queue_op) : option Z :=
  match op with
  | QNone => None
  | QEnqueue c _ | QSkip c | QStop c | QAdvance c => Some c
  end.

(** * Properties *)

(** ** Python helpers on concrete inputs *)

Example split_keeps_trailing_space :
  PyStr.split_maxsplit1 (py "  a  b c  ") = [py "a"; py "b c  "].
Proof. reflexivity. Qed.

Example split_single_word : PyStr.split_maxsplit1 (py "a   ") = [py "a"].
Proof. reflexivity. Qed.

Example normalize_collapses :
  normalize_music_query (py "  a  b   c  ") = py "a b c".
Proof. reflexivity. Qed.

Example safe_basename_strips :
  safe_basename (Some (py "/tmp/tg_music/a<b>.mp3")) = py "ab.mp3".
Proof. reflexivity. Qed.

Example join_adds_slash :
  OsPath.join (py "/tmp/tg_music") (py "x.mp3") = py "/tmp/tg_music/x.mp3".
Proof. reflexivity. Qed.

Example sort_is_stable_newest_first :
  sort_desc snd [(1, 1); (2, 2); (3, 2); (4, 0)]
  = [(2, 2); (3, 2); (1, 1); (4, 0)].
Proof. reflexivity. Qed.

(** ** Strings *)

Lemma startswith_spec (s p : str) :
  PyStr.startswith s p = true <-> exists rest, s = p ++ rest.
Proof.
  revert s. induction p as [|c p IH]; intros s; simpl.
  - split; [intros _; by exists s | done].
  - destruct s as [|d s].
    + split; [done | intros [rest H]; discriminate H].
    + rewrite andb_true_iff, N.eqb_eq, IH. split.
      * intros [-> [rest ->]]. by exists rest.
      * intros [rest H]. injection H as -> ->. split; [done | by exists rest].
Qed.

Lemma endswith_spec (s p : str) :
  PyStr.endswith s p = true <-> exists front, s = front ++ p.
Proof.
  unfold PyStr.endswith. rewrite startswith_spec. split.
  - intros [rest H]. exists (reverse rest).
    rewrite <- (reverse_involutive s), H, reverse_app.
    by rewrite reverse_involutive.
  - intros [front ->]. exists (reverse front). by rewrite reverse_app.
Qed.

(** ** The sort used by the resolver *)

Lemma insert_desc_head {A} (key : A -> Z) (x : A) (l : list A) :
  exists f r, insert_desc key x l = f :: r
    /\ (f = x \/ exists l', l = f :: l' /\ key x < key f)
    /\ key x <= key f /\ (forall y l', l = y :: l' -> key y <= key f).
Proof.
  destruct l as [|y l]; simpl.
  - exists x, []. repeat split; [by left | lia | done].
  - destruct (Z.leb_spec (key y) (key x)).
    + exists x, (y :: l). repeat split; [by left | lia |].
      intros ? ? [= <- <-]. done.
    + exists y, (insert_desc key x l). repeat split; [| lia |].
      * right. by exists l.
      * intros ? ? [= <- <-]. lia.
Qed.

Lemma sort_desc_head {A} (key : A -> Z) (l : list A) :
  match sort_desc key l with
  | [] => l = []
  | f :: _ => f ∈ l /\ forall g, g ∈ l -> key g <= key f
  end.
Proof.
  induction l as [|x l IH]; [done |].
  unfold sort_desc in *. simpl.
  destruct (insert_desc_head key x (foldr (insert_desc key) [] l))
    as (f & r & -> & Hf & Hx & Hy).
  destruct (foldr (insert_desc key) [] l) as [|y l'] eqn:E.
  - subst l. destruct Hf as [-> | (? & [=] & _)].
    split; [by left |]. intros g Hg. apply list_elem_of_singleton in Hg.
    by subst.
  - destruct IH as [Hin Hmax]. specialize (Hy y l' eq_refl). split.
    + destruct Hf as [-> | (? & [= <- _] & _)]; [by left | by right].
    + intros g [-> | Hg]%elem_of_cons; [done |].
      specialize (Hmax g Hg). lia.
Qed.

(** ** Bookkeeping on states *)

Lemma add_events_nil s : add_events [] s = s.
Proof. destruct s. unfold add_events. simpl. by rewrite app_nil_r. Qed.

Lemma add_event_as_events ev s : add_event ev s = add_events [ev] s.
Proof. done. Qed.

Lemma add_events_app evs1 evs2 s :
  add_events evs2 (add_events evs1 s) = add_events (evs1 ++ evs2) s.
Proof. unfold add_events. simpl. by rewrite app_assoc. Qed.

Ltac norm_events :=
  rewrite ?add_event_as_events, ?add_events_app;
  cbn [trace add_events fst snd]; rewrite <- ?app_assoc; cbn [app].

Lemma get_queue_set_queue chat q s : get_queue (set_queue chat q s) chat = q.
Proof. unfold get_queue, set_queue. simpl. by rewrite lookup_insert_eq. Qed.

Lemma get_queue_set_queue_ne chat chat' q s :
  chat <> chat' -> get_queue (set_queue chat q s) chat' = get_queue s chat'.
Proof.
  intros H. unfold get_queue, set_queue. simpl. by rewrite lookup_insert_ne.
Qed.

Lemma get_now_set_now chat v s : get_now (set_now chat v s) chat = v.
Proof. unfold get_now, set_now. simpl. by rewrite lookup_insert_eq. Qed.

Lemma get_now_set_now_ne chat chat' v s :
  chat <> chat' -> get_now (set_now chat v s) chat' = get_now s chat'.
Proof.
  intros H. unfold get_now, set_now. simpl. by rewrite lookup_insert_ne.
Qed.

Lemma set_now_add_events chat v evs s :
  set_now chat v (add_events evs s) = add_events evs (set_now chat v s).
Proof. done. Qed.

Lemma set_queue_add_events chat q evs s :
  set_queue chat q (add_events evs s) = add_events evs (set_queue chat q s).
Proof. done. Qed.

Lemma get_queue_add_events evs s chat :
  get_queue (add_events evs s) chat = get_queue s chat.
Proof. done. Qed.

Lemma get_now_add_events evs s chat :
  get_now (add_events evs s) chat = get_now s chat.
Proof. done. Qed.

Lemma get_queue_set_now chat c v s :
  get_queue (set_now c v s) chat = get_queue s chat.
Proof. done. Qed.

Lemma get_now_set_queue chat c q s :
  get_now (set_queue c q s) chat = get_now s chat.
Proof. done. Qed.

Create Rewrite HintDb mem.
#[local] Hint Rewrite get_queue_set_now get_now_set_queue get_queue_add_events
  get_now_add_events get_queue_set_queue get_now_set_now : mem.
#[local] Hint Rewrite get_queue_set_queue_ne get_now_set_now_ne
  using done : mem.

Ltac norm_state :=
  repeat first
    [ rewrite add_event_as_events | rewrite set_now_add_events
    | rewrite set_queue_add_events | rewrite get_queue_add_events
    | rewrite get_now_add_events | rewrite add_events_app ];
  cbn [app].

Lemma new_events_trace evs s s' :
  trace s' = trace s ++ evs -> new_events s s' = evs.
Proof. unfold new_events. intros ->. by rewrite drop_app_length. Qed.

Lemma new_events_add_events evs s : new_events s (add_events evs s) = evs.
Proof. by apply new_events_trace. Qed.

(** ** How the building blocks run *)

Section Runs.

Variable w : World.

Lemma cleanup_file_run path s :
  cleanup_file w path s = (Ok tt, add_events [EvRemove path] s).
Proof.
  unfold cleanup_file, try_except, call.
  by destruct (w_remove w (trace s) path).
Qed.

Lemma ensure_peer_run chat s :
  ensure_peer w chat s = (Ok tt, add_events [EvGetChat chat] s).
Proof.
  unfold ensure_peer, try_except, call.
  by destruct (w_get_chat w (trace s) chat).
Qed.

Lemma leave_quietly_run chat s :
  leave_quietly w chat s = (Ok tt, add_events [EvLeaveGroupCall chat] s).
Proof.
  unfold leave_quietly, try_except, call.
  by destruct (w_leave_group_call w (trace s) chat).
Qed.

(** The presence check, in full. *)
Lemma assistant_in_group_run chat s :
  assistant_in_group w chat s =
  match ASSISTANT_ID s with
  | None | Some 0 => (Ok false, s)
  | Some aid =>
      (Ok (bool_decide
             (w_get_chat_member w (trace s ++ [EvGetChat chat]) chat aid
              = None)),
       add_events [EvGetChat chat; EvGetChatMember chat aid] s)
  end.
Proof.
  unfold assistant_in_group, bind, get_state.
  destruct (ASSISTANT_ID s) as [[|aid|aid]|] eqn:E; try done.
  all: unfold try_except, bind; rewrite ensure_peer_run; unfold call; simpl.
  all: destruct (w_get_chat_member w _ chat _); unfold ret.
  all: by rewrite add_event_as_events, add_events_app.
Qed.

(** The resolver, in full. *)
Lemma ytdlp_to_mp3_run q s :
  ytdlp_to_mp3 w q s =
  match w_makedirs w (trace s) tg_music_dir with
  | Some e => (Raise e, add_events [EvMakedirs tg_music_dir] s)
  | None =>
      match w_check_call w (trace s ++ [EvMakedirs tg_music_dir])
              (ytdlp_cmd q) with
      | Some e =>
          (Raise e,
           add_events [EvMakedirs tg_music_dir; EvCheckCall (ytdlp_cmd q)] s)
      | None =>
          let evs := [EvMakedirs tg_music_dir; EvCheckCall (ytdlp_cmd q);
                      EvListdir tg_music_dir] in
          let names := w_listdir w (trace s ++ evs) tg_music_dir in
          (match w_listdir_error w
                   (trace s ++ [EvMakedirs tg_music_dir;
                                EvCheckCall (ytdlp_cmd q)]) tg_music_dir with
           | Some e => Raise e
           | None =>
               match sort_key_error w (trace s ++ evs)
                       (List.filter (fun f => PyStr.endswith f (py ".mp3"))
                          names) with
               | Some e => Raise e
               | None =>
                   match mp3_files w (trace s ++ evs) names with
                   | [] => Raise (RuntimeError (py "No mp3 produced"))
                   | f :: _ => Ok (OsPath.join tg_music_dir f)
                   end
               end
           end,
           add_events evs s)
      end
  end.
Proof.
  unfold ytdlp_to_mp3, bind, call, get_state.
  destruct (w_makedirs w (trace s) tg_music_dir); [done |].
  cbn [trace add_event].
  destruct (w_check_call w _ (ytdlp_cmd q)); norm_events; [done |].
  destruct (w_listdir_error w _ tg_music_dir); [done |].
  cbn [trace add_events]. unfold raise, ret.
  destruct (sort_key_error w _ _); [done |].
  by destruct (mp3_files w _ _).
Qed.

(** Whatever the resolver does, it only adds resolver steps to the trace
    and leaves the memory alone. *)
Lemma ytdlp_to_mp3_events q s :
  exists evs, snd (ytdlp_to_mp3 w q s) = add_events evs s
    /\ Forall (fun ev => is_resolver_op ev = true) evs.
Proof.
  rewrite ytdlp_to_mp3_run.
  destruct (w_makedirs w _ _); [| destruct (w_check_call w _ _)];
    eexists; (split; [done | by repeat constructor]).
Qed.

Lemma ensure_join_and_play_run chat file_path s :
  ensure_join_and_play w chat file_path s =
  match w_change_stream w (trace s ++ [EvGetChat chat]) chat file_path with
  | None =>
      (Ok tt,
       add_events [EvGetChat chat; EvChangeStream chat file_path] s)
  | Some _ =>
      (match w_join_group_call w
               (trace s ++ [EvGetChat chat; EvChangeStream chat file_path])
               chat file_path with
       | None => Ok tt
       | Some e => Raise e
       end,
       add_events [EvGetChat chat; EvChangeStream chat file_path;
                   EvJoinGroupCall chat file_path] s)
  end.
Proof.
  unfold ensure_join_and_play, bind. rewrite ensure_peer_run.
  unfold try_except, call. cbn [trace add_events].
  destruct (w_change_stream w _ chat file_path); norm_events; [| done].
  by destruct (w_join_group_call w _ chat file_path).
Qed.

End Runs.

(** ** The presence gate *)

(** C8. [assistant_in_group] (the spec's IsMember) never raises: it returns
    a boolean in every world and state, and the boolean is [true] exactly
    when the assistant id is known and the membership lookup returned
    normally; in particular any failure of the lookup gives [false]. *)
Theorem assistant_in_group_fails_closed (w : World) (chat : Z) (s : St) :
  exists b : bool,
    fst (assistant_in_group w chat s) = Ok b
    /\ (b = true <->
        exists aid, ASSISTANT_ID s = Some aid /\ aid <> 0
          /\ w_get_chat_member w (trace s ++ [EvGetChat chat]) chat aid = None)
    /\ (forall aid e,
          ASSISTANT_ID s = Some aid ->
          w_get_chat_member w (trace s ++ [EvGetChat chat]) chat aid = Some e ->
          b = false).
Proof.
  rewrite assistant_in_group_run.
  destruct (ASSISTANT_ID s) as [[|aid|aid]|] eqn:E; simpl.
  - exists false. split; [done |]. split; [| done].
    split; [done | intros (a & [= <-] & Ha & _); done].
  - eexists. split; [done |]. split.
    + rewrite bool_decide_eq_true. split.
      * intros H. exists (Z.pos aid). by repeat split.
      * by intros (a & [= <-] & _ & H).
    + intros a e [= <-] H. rewrite H. done.
  - eexists. split; [done |]. split.
    + rewrite bool_decide_eq_true. split.
      * intros H. exists (Z.neg aid). by repeat split.
      * by intros (a & [= <-] & _ & H).
    + intros a e [= <-] H. rewrite H. done.
  - exists false. split; [done |]. split; [| done].
    split; [done | intros (a & [=] & _)].
Qed.

(** ** The resolver *)

Lemma sort_key_error_none (w : World) (h : list event) (files : list str) :
  sort_key_error w h files = None
  <-> forall f, f ∈ files ->
        w_getmtime_error w h (OsPath.join tg_music_dir f) = None.
Proof.
  induction files as [|g files IH]; cbn [sort_key_error].
  - split; [| done]. intros _ f Hf. by apply elem_of_nil in Hf.
  - destruct (w_getmtime_error w h (OsPath.join tg_music_dir g)) eqn:Hg.
    + split; [done |]. intros H.
      rewrite <- Hg. apply H. by left.
    + rewrite IH. split.
      * intros H f [-> | Hf]%elem_of_cons; [done | by apply H].
      * intros H f Hf. apply H. by right.
Qed.

Lemma sort_key_error_some (w : World) (h : list event) (files : list str)
    (e : exn) :
  sort_key_error w h files = Some e
  <-> exists front f back,
        files = front ++ f :: back
        /\ Forall (fun g => w_getmtime_error w h (OsPath.join tg_music_dir g)
                            = None) front
        /\ w_getmtime_error w h (OsPath.join tg_music_dir f) = Some e.
Proof.
  induction files as [|g files IH]; cbn [sort_key_error].
  - split; [done |]. intros (front & f & back & H & _).
    by destruct front.
  - destruct (w_getmtime_error w h (OsPath.join tg_music_dir g)) eqn:Hg.
    + split.
      * intros [= ->]. by exists [], g, files.
      * intros (front & f & back & H & Hfront & Hf).
        destruct front as [|g' front]; injection H as -> ->; [congruence |].
        apply Forall_cons in Hfront as [Hg' _]. congruence.
    + rewrite IH. split.
      * intros (front & f & back & -> & Hfront & Hf).
        exists (g :: front), f, back. repeat split; [| done].
        by constructor.
      * intros (front & f & back & H & Hfront & Hf).
        destruct front as [|g' front]; injection H as -> ->; [congruence |].
        apply Forall_cons in Hfront as [_ Hfront].
        by exists front, f, back.
Qed.

(** C9. The resolver input is a direct locator exactly when it starts with
    [http://] or [https://]. Once [os.makedirs] has returned, the resolver
    submits one command to [yt-dlp], as its very next step and whatever
    happens afterwards: the fixed options followed by the input itself when
    it is a locator, and by [ytsearch1:] and the input (a one-result search)
    in every other case. It submits no other command, and none at all when
    [os.makedirs] raises. *)
Theorem url_iff_scheme_else_search (w : World) (q : str) (s : St) :
  let has_scheme :=
    exists rest, q = py "http://" ++ rest \/ q = py "https://" ++ rest in
  let options :=
    [py "yt-dlp"; py "-x"; py "--audio-format"; py "mp3"; py "--no-playlist";
     py "-o"; outtmpl] in
  let issued := new_events s (snd (ytdlp_to_mp3 w q s)) in
  (is_url q = true <-> has_scheme)
  /\ (has_scheme -> ytdlp_cmd q = options ++ [q])
  /\ (~ has_scheme -> ytdlp_cmd q = options ++ [py "ytsearch1:" ++ q])
  /\ (w_makedirs w (trace s) tg_music_dir = None ->
      exists rest,
        issued = EvMakedirs tg_music_dir :: EvCheckCall (ytdlp_cmd q) :: rest
        /\ forall cmd, EvCheckCall cmd ∉ rest)
  /\ (w_makedirs w (trace s) tg_music_dir <> None ->
      issued = [EvMakedirs tg_music_dir]).
Proof.
  intros has_scheme options issued.
  assert (Hurl : is_url q = true <-> has_scheme).
  { unfold is_url, has_scheme. rewrite orb_true_iff, !startswith_spec.
    split.
    - intros [[rest ->] | [rest ->]]; exists rest; [by left | by right].
    - intros [rest [-> | ->]]; [left | right]; by exists rest. }
  split; [exact Hurl |].
  split; [| split].
  - intros H. apply Hurl in H. unfold ytdlp_cmd, ytdlp_target. by rewrite H.
  - intros H. unfold ytdlp_cmd, ytdlp_target.
    destruct (is_url q) eqn:E; [| done]. destruct H. by apply Hurl.
  - subst issued. rewrite ytdlp_to_mp3_run.
    destruct (w_makedirs w (trace s) tg_music_dir) as [e|].
    + split; [done |]. intros _. cbn [snd]. by rewrite new_events_add_events.
    + split; [| done]. intros _.
      destruct (w_check_call w _ (ytdlp_cmd q)); cbn [snd];
        rewrite new_events_add_events; eexists; (split; [done |]);
        intros cmd Hin.
      * by apply elem_of_nil in Hin.
      * apply list_elem_of_singleton in Hin. discriminate Hin.
Qed.

Lemma url_iff_scheme_else_search_witness :
  w_makedirs Sample.calm (trace (init (Some 5))) tg_music_dir = None
  /\ (exists rest,
        new_events (init (Some 5))
          (snd (ytdlp_to_mp3 Sample.calm (py "lo-fi beats") (init (Some 5))))
        = EvMakedirs tg_music_dir
            :: EvCheckCall
                 [py "yt-dlp"; py "-x"; py "--audio-format"; py "mp3";
                  py "--no-playlist"; py "-o"; outtmpl;
                  py "ytsearch1:lo-fi beats"]
            :: rest)
  /\ (exists rest,
        new_events (init (Some 5))
          (snd (ytdlp_to_mp3 Sample.calm (py "https://youtu.be/x")
                  (init (Some 5))))
        = EvMakedirs tg_music_dir
            :: EvCheckCall
                 [py "yt-dlp"; py "-x"; py "--audio-format"; py "mp3";
                  py "--no-playlist"; py "-o"; outtmpl;
                  py "https://youtu.be/x"]
            :: rest).
Proof.
  split; [reflexivity |]. split.
  - destruct (url_iff_scheme_else_search Sample.calm (py "lo-fi beats")
                (init (Some 5))) as (Hurl & _ & Hsearch & Hissued & _).
    destruct (Hissued eq_refl) as (rest & -> & _). exists rest.
    rewrite Hsearch; [reflexivity |].
    intros H. apply Hurl in H. vm_compute in H. discriminate H.
  - destruct (url_iff_scheme_else_search Sample.calm (py "https://youtu.be/x")
                (init (Some 5))) as (Hurl & Hdirect & _ & Hissued & _).
    destruct (Hissued eq_refl) as (rest & -> & _). exists rest.
    rewrite Hdirect; [reflexivity |].
    apply Hurl. vm_compute. reflexivity.
Defined.

(** C10. When the download command returned normally, the resolver answers
    from what it reads in [/tmp/tg_music]. It raises in three cases, and in
    no other: the listing itself raises; the modification time of a listed
    [.mp3] name cannot be read (the error of the first such name, in the
    order of the listing, is the one raised); the listing has no [.mp3]
    name ([No mp3 produced]). Otherwise it returns the joined path of an
    [.mp3] name of the listing whose modification time is the largest.
    Which file this request produced plays no part: when the listing is
    [new.mp3] and [old.mp3] and the time of [old.mp3] is the later one, the
    answer is [old.mp3]. *)
Theorem ytdlp_to_mp3_returns_newest_mp3 (w : World) (q : str) (s : St)
    (Hmk : w_makedirs w (trace s) tg_music_dir = None)
    (Hdl : w_check_call w (trace s ++ [EvMakedirs tg_music_dir]) (ytdlp_cmd q)
           = None) :
  let h0 := trace s ++ [EvMakedirs tg_music_dir; EvCheckCall (ytdlp_cmd q)] in
  let h := trace s ++ [EvMakedirs tg_music_dir; EvCheckCall (ytdlp_cmd q);
                       EvListdir tg_music_dir] in
  let names := w_listdir w h tg_music_dir in
  let is_mp3 := fun f : str => PyStr.endswith f (py ".mp3") = true in
  let mtime := fun f : str => w_getmtime w h (OsPath.join tg_music_dir f) in
  let unreadable :=
    fun f : str => w_getmtime_error w h (OsPath.join tg_music_dir f) in
  let answer := fst (ytdlp_to_mp3 w q s) in
  ((exists e, answer = Raise e)
     <-> w_listdir_error w h0 tg_music_dir <> None
         \/ (exists f, f ∈ names /\ is_mp3 f /\ unreadable f <> None)
         \/ (forall f, f ∈ names -> ~ is_mp3 f))
  /\ (forall e, w_listdir_error w h0 tg_music_dir = Some e -> answer = Raise e)
  /\ (w_listdir_error w h0 tg_music_dir = None ->
      forall front f back e,
        List.filter (fun f => PyStr.endswith f (py ".mp3")) names
        = front ++ f :: back ->
        Forall (fun g => unreadable g = None) front ->
        unreadable f = Some e ->
        answer = Raise e)
  /\ (w_listdir_error w h0 tg_music_dir = None ->
      (forall f, f ∈ names -> is_mp3 f -> unreadable f = None) ->
      ((forall f, f ∈ names -> ~ is_mp3 f) ->
       answer = Raise (RuntimeError (py "No mp3 produced")))
      /\ ((exists f, f ∈ names /\ is_mp3 f) ->
          exists f, answer = Ok (OsPath.join tg_music_dir f)
            /\ f ∈ names /\ is_mp3 f
            /\ forall g, g ∈ names -> is_mp3 g -> mtime g <= mtime f)
      /\ (names = [py "new.mp3"; py "old.mp3"] ->
          mtime (py "new.mp3") < mtime (py "old.mp3") ->
          answer = Ok (py "/tmp/tg_music/old.mp3"))).
Proof.
  intros h0 h names is_mp3 mtime unreadable answer. subst answer.
  rewrite ytdlp_to_mp3_run, Hmk, Hdl. cbn zeta. cbn [fst].
  fold h0. fold h. fold names. unfold mp3_files.
  set (files := List.filter (fun f => PyStr.endswith f (py ".mp3")) names).
  pose proof (sort_desc_head
                (fun x => w_getmtime w h (OsPath.join tg_music_dir x)) files)
    as Hsort.
  assert (Hfilter : forall f, f ∈ files <-> f ∈ names /\ is_mp3 f).
  { intros f. unfold files. rewrite !list_elem_of_In, filter_In. done. }
  destruct (w_listdir_error w h0 tg_music_dir) as [e0|].
  { split; [| split; [| split]]; try done.
    - split; [intros _; by left | intros _; by eexists].
    - by intros e [= ->]. }
  destruct (sort_key_error w h files) as [e1|] eqn:Hkeys.
  { destruct (proj1 (sort_key_error_some w h files e1) Hkeys)
      as (front & f & back & Hfiles & Hfront & Hf).
    assert (Hin : f ∈ names /\ is_mp3 f).
    { apply Hfilter. rewrite Hfiles. apply elem_of_app. right. by left. }
    split; [| split; [| split]].
    - split; [| intros _; by eexists].
      intros _. right. left. exists f. destruct Hin as [Hin Hm].
      repeat split; try done. unfold unreadable. by rewrite Hf.
    - done.
    - intros _ front' f' back' e' Hfiles' Hfront' Hf'.
      assert (H : sort_key_error w h files = Some e').
      { apply sort_key_error_some. by exists front', f', back'. }
      congruence.
    - intros _ Hall. destruct Hin as [Hin Hm].
      specialize (Hall f Hin Hm). unfold unreadable in Hall. congruence. }
  assert (Hread : forall f, f ∈ names -> is_mp3 f -> unreadable f = None).
  { intros f Hf Hm. apply (proj1 (sort_key_error_none w h files) Hkeys).
    by apply Hfilter. }
  assert (Hfirst : forall front f back e,
             files = front ++ f :: back -> unreadable f = Some e -> False).
  { intros front f back e Hfiles Hf.
    assert (Hin : f ∈ files).
    { rewrite Hfiles. apply elem_of_app. right. by left. }
    apply Hfilter in Hin as [Hin Hm]. rewrite (Hread f Hin Hm) in Hf. done. }
  destruct (sort_desc _ files) as [|f r] eqn:E.
  - assert (Hno : forall f, f ∈ names -> ~ is_mp3 f).
    { intros f Hf Hm. assert (H : f ∈ @nil str); [| by apply elem_of_nil in H].
      rewrite <- Hsort. by apply Hfilter. }
    split; [| split; [| split]].
    + split; [intros _; by right; right | intros _; by eexists].
    + done.
    + intros _ front f back e Hfiles _ Hf.
      by destruct (Hfirst front f back e).
    + intros _ _. split; [done |]. split.
      * intros (f & Hf & Hm). by destruct (Hno f Hf).
      * intros Hn _. destruct (Hno (py "old.mp3")).
        -- rewrite Hn. apply elem_of_cons. right. by left.
        -- done.
  - destruct Hsort as [Hin Hmax]. apply Hfilter in Hin as [Hin Hm].
    split; [| split; [| split]].
    + split; [intros [e He]; discriminate He |].
      intros [H | [(g & Hg & Hgm & Hbad) | Hno]]; [done | |].
      * by destruct Hbad, (Hread g Hg Hgm).
      * by destruct (Hno f Hin).
    + done.
    + intros _ front g back e Hfiles _ Hg.
      by destruct (Hfirst front g back e).
    + intros _ _. split; [| split].
      * intros Hno. by destruct (Hno f Hin).
      * intros _. exists f. repeat split; try done.
        intros g Hg Hgm. apply (Hmax g). by apply Hfilter.
      * intros Hn Hlt.
        assert (Hold : mtime (py "old.mp3") <= mtime f).
        { apply (Hmax (py "old.mp3")). apply Hfilter. rewrite Hn.
          split; [apply elem_of_cons; right; by left | done]. }
        rewrite Hn in Hin.
        apply elem_of_cons in Hin as [-> | Hin]; [lia |].
        apply list_elem_of_singleton in Hin as ->. done.
Qed.

Lemma ytdlp_to_mp3_returns_newest_mp3_witness :
  w_makedirs Sample.stale (trace (init (Some 5))) tg_music_dir = None
  /\ w_check_call Sample.stale
       (trace (init (Some 5)) ++ [EvMakedirs tg_music_dir])
       (ytdlp_cmd (py "new song")) = None
  /\ fst (ytdlp_to_mp3 Sample.stale (py "new song") (init (Some 5)))
     = Ok (py "/tmp/tg_music/old.mp3").
Proof.
  split; [reflexivity |]. split; [reflexivity |].
  apply (ytdlp_to_mp3_returns_newest_mp3 Sample.stale (py "new song")
           (init (Some 5)) eq_refl eq_refl); [reflexivity | | reflexivity |].
  - intros f _ _. reflexivity.
  - vm_compute. reflexivity.
Defined.

(** The download returned normally and the listing holds an [.mp3] name,
    yet the resolver raises: the name is a link to a file that is gone, and
    reading its modification time fails. *)
Lemma unreadable_mp3_fails_resolution :
  w_makedirs Sample.dangling (trace (init (Some 5))) tg_music_dir = None
  /\ w_check_call Sample.dangling
       (trace (init (Some 5)) ++ [EvMakedirs tg_music_dir])
       (ytdlp_cmd (py "song")) = None
  /\ w_listdir Sample.dangling
       (trace (init (Some 5))
        ++ [EvMakedirs tg_music_dir; EvCheckCall (ytdlp_cmd (py "song"));
            EvListdir tg_music_dir]) tg_music_dir
     = [py "ghost.mp3"]
  /\ PyStr.endswith (py "ghost.mp3") (py ".mp3") = true
  /\ fst (ytdlp_to_mp3 Sample.dangling (py "song") (init (Some 5)))
     = Raise (ExternalError
                (py "[Errno 2] No such file or directory: '/tmp/tg_music/ghost.mp3'"))
  /\ ~ ((exists e,
           fst (ytdlp_to_mp3 Sample.dangling (py "song") (init (Some 5)))
           = Raise e)
        <-> forall f, f ∈ [py "ghost.mp3"] ->
              PyStr.endswith f (py ".mp3") <> true).
Proof.
  assert (Hraise :
    fst (ytdlp_to_mp3 Sample.dangling (py "song") (init (Some 5)))
    = Raise (ExternalError
               (py "[Errno 2] No such file or directory: '/tmp/tg_music/ghost.mp3'")))
    by (vm_compute; reflexivity).
  do 4 (split; [reflexivity |]). split; [exact Hraise |].
  intros [Hno _].
  apply (Hno (ex_intro _ _ Hraise) (py "ghost.mp3")); [by left | reflexivity].
Qed.


(** ** How the handlers run *)

Section HandlerRuns.

Variable w : World.

Lemma play_next_run chat s :
  play_next w chat s =
  match get_queue s chat with
  | [] => (Ok tt, add_events [EvLeaveGroupCall chat] (set_now chat None s))
  | file_path :: _ =>
      ensure_join_and_play w chat file_path (set_now chat (Some file_path) s)
  end.
Proof.
  unfold play_next, bind, get_state, modify.
  destruct (get_queue s chat); [| done].
  by rewrite leave_quietly_run.
Qed.

Lemma cmd_play_enqueue_run m chat file_path s :
  cmd_play_enqueue w m chat file_path s =
  match get_queue s chat with
  | [] =>
      match ensure_join_and_play w chat file_path
              (set_now chat (Some file_path)
                 (set_queue chat [file_path] s)) with
      | (Ok _, s') =>
          (Ok tt,
           add_events
             [EvEditText m (Text.playing (safe_basename (Some file_path)))]
             s')
      | (Raise e, s') =>
          (Ok tt,
           add_events
             [EvEditText m (Text.join_failed (take 180 (str_of_exn e)))] s')
      end
  | q =>
      (Ok tt,
       add_events
         [EvEditText m (Text.queued (safe_basename (Some file_path)))]
         (set_queue chat (q ++ [file_path]) s))
  end.
Proof.
  unfold cmd_play_enqueue, bind, get_state, modify.
  rewrite get_queue_set_queue.
  destruct (get_queue s chat) as [|a q] eqn:E.
  - cbn [app length Nat.eqb]. unfold try_except, bind.
    rewrite play_next_run, get_queue_set_queue.
    by destruct (ensure_join_and_play w chat file_path _) as [[[]|e] s'].
  - rewrite length_app. cbn [length]. 
    replace (S (length q) + 1 =? 1)%nat with false; [done |].
    symmetry. apply Nat.eqb_neq. lia.
Qed.

Lemma for_each_cleanup_run (l : list str) s :
  for_each l (cleanup_file w) s = (Ok tt, add_events (EvRemove <$> l) s).
Proof.
  revert s. induction l as [|x l IH]; intros s; simpl.
  - by rewrite add_events_nil.
  - unfold bind. rewrite cleanup_file_run, IH. by rewrite add_events_app.
Qed.

Lemma cmd_skip_run m s :
  cmd_skip w m s =
  match in_group m with
  | None => (Ok tt, add_events [EvReply m Text.not_group] s)
  | Some chat =>
      match get_queue s chat with
      | [] => (Ok tt, add_events [EvReply m Text.no_queue] s)
      | [cur] =>
          (Ok tt,
           add_events [EvRemove cur; EvLeaveGroupCall chat;
                       EvReply m Text.stopped_queue_empty]
             (set_now chat None (set_queue chat [] s)))
      | cur :: next :: q =>
          match ensure_join_and_play w chat next
                  (add_events [EvRemove cur]
                     (set_now chat (Some next)
                        (set_queue chat (next :: q) s))) with
          | (Ok _, s') => (Ok tt, add_events [EvReply m Text.skipped] s')
          | (Raise e, s') =>
              (Ok tt,
               add_events
                 [EvReply m (Text.next_failed (take 180 (str_of_exn e)))] s')
          end
      end
  end.
Proof.
  unfold cmd_skip. destruct (in_group m) as [chat|]; [| done].
  unfold bind, get_state, modify.
  destruct (get_queue s chat) as [|cur [|next q]] eqn:E; [done | |].
  - rewrite cleanup_file_run, leave_quietly_run. unfold emit, modify.
    by norm_state.
  - rewrite cleanup_file_run. unfold try_except, bind.
    rewrite play_next_run. norm_state. rewrite get_queue_set_queue.
    norm_state.
    by destruct (ensure_join_and_play w chat next _) as [[[]|e] s'].
Qed.

Lemma cmd_stop_run m s :
  cmd_stop w m s =
  match in_group m with
  | None => (Ok tt, add_events [EvReply m Text.not_group] s)
  | Some chat =>
      (Ok tt,
       add_events
         ((EvRemove <$> get_queue s chat)
            ++ [EvLeaveGroupCall chat; EvReply m Text.stopped_cleared])
         (set_now chat None (set_queue chat [] s)))
  end.
Proof.
  unfold cmd_stop. destruct (in_group m) as [chat|]; [| done].
  unfold bind, get_state, modify. rewrite for_each_cleanup_run.
  rewrite leave_quietly_run. unfold emit, modify.
  by norm_state.
Qed.

End HandlerRuns.

(** ** Every request is one queue operation *)

Section QueueOps.

Variable w : World.

Lemma ensure_join_and_play_events chat file_path s :
  exists evs, snd (ensure_join_and_play w chat file_path s) = add_events evs s.
Proof.
  rewrite ensure_join_and_play_run.
  destruct (w_change_stream w _ chat file_path); by eexists.
Qed.

Lemma assistant_in_group_events chat s :
  exists evs, snd (assistant_in_group w chat s) = add_events evs s.
Proof.
  rewrite assistant_in_group_run.
  destruct (ASSISTANT_ID s) as [[| |]|]; try by eexists.
  all: exists []; by rewrite add_events_nil.
Qed.

Lemma play_next_is_op chat s :
  exists evs,
    snd (play_next w chat s) = add_events evs (apply_op (QAdvance chat) s).
Proof.
  rewrite play_next_run. unfold apply_op.
  destruct (get_queue s chat) as [|f q]; [by eexists |].
  apply ensure_join_and_play_events.
Qed.

Lemma cmd_play_enqueue_is_op m chat file_path s :
  exists evs,
    snd (cmd_play_enqueue w m chat file_path s)
    = add_events evs (apply_op (QEnqueue chat file_path) s).
Proof.
  rewrite cmd_play_enqueue_run. unfold apply_op.
  destruct (get_queue s chat) as [|a q]; [| by eexists].
  destruct (ensure_join_and_play_events chat file_path
              (set_now chat (Some file_path) (set_queue chat [file_path] s)))
    as [evs Hevs].
  destruct (ensure_join_and_play w chat file_path _) as [[[]|e] s'];
    simpl in *; subst s'; eexists; by rewrite add_events_app.
Qed.

Lemma cmd_play_is_op m s :
  exists op evs, snd (cmd_play w m s) = add_events evs (apply_op op s).
Proof.
  unfold cmd_play.
  destruct (in_group m) as [chat|]; [| by exists QNone; eexists].
  destruct (parts_of m) as [|c [|arg rest]]; try by exists QNone; eexists.
  unfold bind.
  destruct (assistant_in_group_events chat s) as [evs1 H1].
  destruct (assistant_in_group w chat s) as [[[]|e] s1]; simpl in H1; subst s1.
  - unfold emit, modify, attempt. cbn [negb].
    destruct (ytdlp_to_mp3_events w (normalize_music_query arg)
                (add_event (EvReply m Text.searching) (add_events evs1 s)))
      as (evs2 & H2 & _).
    destruct (ytdlp_to_mp3 w _ _) as [[p|e] s2]; simpl in H2; subst s2.
    + destruct (cmd_play_enqueue_is_op m chat p
                  (add_events evs2
                     (add_event (EvReply m Text.searching)
                        (add_events evs1 s)))) as [evs3 H3].
      exists (QEnqueue chat p). rewrite H3.
      assert (Hq : get_queue (add_events evs2
                     (add_event (EvReply m Text.searching)
                        (add_events evs1 s))) chat = get_queue s chat) by done.
      unfold apply_op. rewrite Hq.
      destruct (get_queue s chat); eexists; by norm_state.
    + exists QNone. eexists. simpl. by norm_state.
  - exists QNone. eexists. simpl. unfold emit, modify. by norm_state.
  - exists QNone. by eexists.
Qed.

Lemma cmd_skip_is_op m s :
  exists op evs, snd (cmd_skip w m s) = add_events evs (apply_op op s).
Proof.
  rewrite cmd_skip_run.
  destruct (in_group m) as [chat|]; [| by exists QNone; eexists].
  destruct (get_queue s chat) as [|cur [|next q]] eqn:E.
  - exists QNone. by eexists.
  - exists (QSkip chat). unfold apply_op. rewrite E. by eexists.
  - exists (QSkip chat). unfold apply_op. rewrite E. cbn [head].
    destruct (ensure_join_and_play_events chat next
                (add_events [EvRemove cur]
                   (set_now chat (Some next) (set_queue chat (next :: q) s))))
      as [evs Hevs].
    destruct (ensure_join_and_play w chat next _) as [[[]|e] s'];
      simpl in *; subst s'; eexists; by rewrite !add_events_app.
Qed.

Lemma cmd_stop_is_op m s :
  exists op evs, snd (cmd_stop w m s) = add_events evs (apply_op op s).
Proof.
  rewrite cmd_stop_run.
  destruct (in_group m) as [chat|]; [| by exists QNone; eexists].
  exists (QStop chat). by eexists.
Qed.

Lemma serve_is_op r s :
  exists op evs, serve w s r = add_events evs (apply_op op s).
Proof.
  unfold serve. destruct r as [m|m|m|chat]; simpl.
  - apply cmd_play_is_op.
  - apply cmd_skip_is_op.
  - apply cmd_stop_is_op.
  - exists (QAdvance chat). apply play_next_is_op.
Qed.

End QueueOps.

(** ** What the queue operations keep *)

Lemma apply_op_now_is_head op s :
  now_is_head s -> now_is_head (apply_op op s).
Proof.
  intros Hs chat. specialize (Hs chat).
  destruct op as [|c p|c|c|c]; simpl; [done | | | |].
  - destruct (get_queue s c) as [|a q] eqn:E;
      (destruct (decide (c = chat)) as [<- | Hne];
       [autorewrite with mem | by autorewrite with mem]); [done |].
    by rewrite Hs, E.
  - destruct (get_queue s c) as [|a q] eqn:E; [done |].
    destruct (decide (c = chat)) as [<- | Hne]; by autorewrite with mem.
  - destruct (decide (c = chat)) as [<- | Hne]; by autorewrite with mem.
  - destruct (decide (c = chat)) as [<- | Hne]; by autorewrite with mem.
Qed.

Lemma serve_now_is_head w r s : now_is_head s -> now_is_head (serve w s r).
Proof.
  intros Hs. destruct (serve_is_op w r s) as (op & evs & ->).
  intros chat. apply (apply_op_now_is_head op s Hs chat).
Qed.

Lemma run_now_is_head w rs s : now_is_head s -> now_is_head (run w rs s).
Proof.
  revert s. induction rs as [|r rs IH]; intros s Hs; [done |].
  simpl. apply IH. by apply serve_now_is_head.
Qed.

Lemma init_now_is_head aid : now_is_head (init aid).
Proof.
  intros chat. unfold get_now, get_queue. simpl. by rewrite !lookup_empty.
Qed.

Lemma reachable_now_is_head w s : reachable w s -> now_is_head s.
Proof. intros (aid & rs & ->). apply run_now_is_head, init_now_is_head. Qed.

Lemma adds_only_fresh_app q p :
  adds_only_fresh q (q ++ [p]) = true -> p ∉ q.
Proof.
  unfold adds_only_fresh. rewrite reverse_app. simpl.
  rewrite reverse_involutive, bool_decide_eq_true_2 by done.
  by intros ?%bool_decide_eq_true.
Qed.

Lemma apply_op_nodup op s chat :
  NoDup (get_queue s chat) ->
  adds_only_fresh (get_queue s chat) (get_queue (apply_op op s) chat) = true ->
  NoDup (get_queue (apply_op op s) chat).
Proof.
  intros Hnd. destruct op as [|c p|c|c|c]; simpl; try done.
  - destruct (decide (c = chat)) as [<- | Hne].
    + destruct (get_queue s c) as [|a q] eqn:E; autorewrite with mem.
      * intros _. apply NoDup_singleton.
      * change (a :: q ++ [p]) with ((a :: q) ++ [p]).
        intros Hf%adds_only_fresh_app.
        apply NoDup_app. split; [done |].
        split; [| apply NoDup_singleton].
        intros x Hx Hp. apply list_elem_of_singleton in Hp. by subst.
    + intros _. destruct (get_queue s c); by autorewrite with mem.
  - intros _. destruct (get_queue s c) as [|a q] eqn:E; [done |].
    destruct (decide (c = chat)) as [<- | Hne]; autorewrite with mem; [| done].
    rewrite E in Hnd. by apply NoDup_cons in Hnd as [_ Hq].
  - intros _.
    destruct (decide (c = chat)) as [<- | Hne]; autorewrite with mem; [| done].
    apply NoDup_nil_2.
Qed.

Lemma run_nodup w chat rs s :
  NoDup (get_queue s chat) -> fresh_run w chat rs s = true ->
  NoDup (get_queue (run w rs s) chat).
Proof.
  revert s. induction rs as [|r rs IH]; intros s Hnd Hf; [done |].
  simpl in *. apply andb_true_iff in Hf as [Hf1 Hf2].
  apply IH; [| done].
  destruct (serve_is_op w r s) as (op & evs & Hs). rewrite Hs in Hf1 |- *.
  by apply apply_op_nodup.
Qed.

Lemma current_pending_queue s chat :
  get_now s chat = head (get_queue s chat) ->
  current s chat ++ pending s chat = get_queue s chat.
Proof.
  unfold current, pending. intros ->. by destruct (get_queue s chat).
Qed.

(** ** The queue invariant *)

(** C1, as the code has it. After any sequence of play, skip, stop and
    advance requests, a group has at most one current item and that item is
    the head of the stored queue; current and pending together hold no path
    twice as long as no request appended a path that the queue already
    held. *)
Theorem current_is_head_of_queue (w : World) (aid : option Z)
    (rs : list request) (chat : Z) :
  (length (current (run w rs (init aid)) chat) <= 1)%nat
  /\ get_now (run w rs (init aid)) chat
     = head (get_queue (run w rs (init aid)) chat)
  /\ (fresh_run w chat rs (init aid) = true ->
      NoDup (current (run w rs (init aid)) chat
             ++ pending (run w rs (init aid)) chat)).
Proof.
  assert (Hhead : get_now (run w rs (init aid)) chat
                  = head (get_queue (run w rs (init aid)) chat))
    by (apply (reachable_now_is_head w); by exists aid, rs).
  split; [| split; [done |]].
  - unfold current. destruct (get_now _ chat); simpl; lia.
  - intros Hf. rewrite current_pending_queue by done.
    apply run_nodup; [| done].
    unfold get_queue. simpl. rewrite lookup_empty. apply NoDup_nil_2.
Qed.

Lemma current_is_head_of_queue_witness :
  fresh_run Sample.growing 7 Sample.three_songs (init (Some 5)) = true
  /\ NoDup (current (run Sample.growing Sample.three_songs (init (Some 5))) 7
            ++ pending (run Sample.growing Sample.three_songs (init (Some 5))) 7).
Proof.
  split; [vm_compute; reflexivity |].
  apply (current_is_head_of_queue Sample.growing (Some 5) Sample.three_songs 7).
  vm_compute; reflexivity.
Defined.

(** C1, as stated, fails: the resolver answers two requests for the same song
    with the same path, which is then current and pending at once. *)
Lemma same_path_current_and_pending :
  ~ NoDup (current Sample.same_song_twice 7 ++ pending Sample.same_song_twice 7).
Proof.
  assert (H : current Sample.same_song_twice 7 ++ pending Sample.same_song_twice 7
              = [py "/tmp/tg_music/a.mp3"; py "/tmp/tg_music/a.mp3"])
    by (vm_compute; reflexivity).
  rewrite H. intros [Hnotin _]%NoDup_cons. apply Hnotin. by left.
Qed.

(** ** Stop *)

Lemma no_call_op_in_removals (l : list str) :
  List.filter is_call_op (EvRemove <$> l) = [].
Proof. induction l; [done | by simpl]. Qed.

(** C5. In a group, whatever was requested before: [cmd_stop] returns
    normally; it leaves the group with an empty stored queue and no current
    item; it asks for the removal of every path the group held (the queue,
    whose head is the current item), then issues one leave call and no other
    call on the voice client, and replies with the stopped-and-cleared text,
    whether or not the leave call raised. *)
Theorem stop_clears_and_leaves (w : World) (s : St) (m : Message) (chat : Z)
    (Hs : reachable w s) (Hg : in_group m = Some chat) :
  exists s',
    cmd_stop w m s = (Ok tt, s')
    /\ mem_queue s' !! chat = Some []
    /\ mem_now s' !! chat = Some None
    /\ current s' chat ++ pending s' chat = []
    /\ (forall f, f ∈ current s chat ++ pending s chat ->
                  EvRemove f ∈ new_events s s')
    /\ new_events s s'
       = (EvRemove <$> get_queue s chat)
           ++ [EvLeaveGroupCall chat; EvReply m Text.stopped_cleared]
    /\ List.filter is_call_op (new_events s s') = [EvLeaveGroupCall chat].
Proof.
  rewrite cmd_stop_run, Hg. eexists. split; [done |].
  rewrite (new_events_trace
             ((EvRemove <$> get_queue s chat)
                ++ [EvLeaveGroupCall chat; EvReply m Text.stopped_cleared]))
    by done.
  split; [apply lookup_insert_eq |]. split; [apply lookup_insert_eq |].
  split; [| split; [| split; [done |]]].
  - unfold current, pending. by autorewrite with mem.
  - intros f Hf. rewrite current_pending_queue in Hf
      by (by apply (reachable_now_is_head w s)).
    apply elem_of_app. left. by apply list_elem_of_fmap_2.
  - rewrite List.filter_app, no_call_op_in_removals. done.
Qed.

Lemma stop_clears_and_leaves_witness :
  reachable Sample.calm (run Sample.calm Sample.three_songs (init (Some 5)))
  /\ in_group (Sample.group_message 7 "/stop") = Some 7
  /\ exists s',
       cmd_stop Sample.calm (Sample.group_message 7 "/stop")
         (run Sample.calm Sample.three_songs (init (Some 5))) = (Ok tt, s')
       /\ mem_queue s' !! 7 = Some [].
Proof.
  assert (Hs : reachable Sample.calm
                 (run Sample.calm Sample.three_songs (init (Some 5))))
    by (by exists (Some 5), Sample.three_songs).
  split; [exact Hs |]. split; [reflexivity |].
  destruct (stop_clears_and_leaves Sample.calm _
              (Sample.group_message 7 "/stop") 7 Hs eq_refl)
    as (s' & Hrun & Hq & _).
  by exists s'.
Defined.

(** ** Skip *)

(** C4. In a group whose stored queue holds two items or more, [cmd_skip]
    returns normally; the head of the queue, which is the current item, is
    taken off and its file removed; the second item becomes the head and the
    current item; and the voice client is driven once for it: one change of
    stream, followed by a join only when that change raised, both with the
    promoted item. The reply says skipped, or carries the join error. *)
Theorem skip_promotes_second (w : World) (s : St) (m : Message) (chat : Z)
    (cur next : str) (q : list str)
    (Hs : reachable w s) (Hg : in_group m = Some chat)
    (Hq : get_queue s chat = cur :: next :: q) :
  exists s',
    cmd_skip w m s = (Ok tt, s')
    /\ current s chat = [cur]
    /\ get_queue s' chat = next :: q
    /\ current s' chat = [next]
    /\ new_events s s'
       = [EvRemove cur; EvGetChat chat; EvChangeStream chat next]
           ++ match w_change_stream w (trace s ++ [EvRemove cur; EvGetChat chat])
                      chat next with
              | None => [EvReply m Text.skipped]
              | Some _ =>
                  [EvJoinGroupCall chat next;
                   EvReply m
                     match w_join_group_call w
                             (trace s ++ [EvRemove cur; EvGetChat chat;
                                          EvChangeStream chat next])
                             chat next with
                     | None => Text.skipped
                     | Some e => Text.next_failed (take 180 (str_of_exn e))
                     end]
              end
    /\ List.filter is_call_op (new_events s s')
       = EvChangeStream chat next
           :: match w_change_stream w
                      (trace s ++ [EvRemove cur; EvGetChat chat]) chat next with
              | None => []
              | Some _ => [EvJoinGroupCall chat next]
              end.
Proof.
  assert (Hcur : current s chat = [cur]).
  { unfold current. rewrite (reachable_now_is_head w s Hs chat), Hq. done. }
  rewrite cmd_skip_run, Hg, Hq, ensure_join_and_play_run.
  cbn [trace add_events set_now set_queue]. rewrite <- app_assoc. cbn [app].
  destruct (w_change_stream w _ chat next) as [e0|];
    [rewrite <- app_assoc; cbn [app];
     destruct (w_join_group_call w _ chat next) as [e|] |].
  all: norm_state; eexists; split; [done |]; split; [done |].
  all: unfold current; autorewrite with mem; split; [done |]; split; [done |].
  all: erewrite new_events_trace by reflexivity; by split.
Qed.

Lemma skip_promotes_second_witness :
  reachable Sample.growing (run Sample.growing Sample.two_songs (init (Some 5)))
  /\ in_group (Sample.group_message 7 "/skip") = Some 7
  /\ get_queue (run Sample.growing Sample.two_songs (init (Some 5))) 7
     = [py "/tmp/tg_music/B.mp3"; py "/tmp/tg_music/K.mp3"]
  /\ exists s',
       cmd_skip Sample.growing (Sample.group_message 7 "/skip")
         (run Sample.growing Sample.two_songs (init (Some 5))) = (Ok tt, s')
       /\ current s' 7 = [py "/tmp/tg_music/K.mp3"].
Proof.
  assert (Hs : reachable Sample.growing
                 (run Sample.growing Sample.two_songs (init (Some 5))))
    by (by exists (Some 5), Sample.two_songs).
  assert (Hq : get_queue (run Sample.growing Sample.two_songs (init (Some 5))) 7
               = [py "/tmp/tg_music/B.mp3"; py "/tmp/tg_music/K.mp3"])
    by (vm_compute; reflexivity).
  split; [exact Hs |]. split; [reflexivity |]. split; [exact Hq |].
  destruct (skip_promotes_second Sample.growing _
              (Sample.group_message 7 "/skip") 7 _ _ _ Hs eq_refl Hq)
    as (s' & Hrun & _ & _ & Hcur & _).
  by exists s'.
Defined.

(** ** Play: the gate *)

Section PlayRuns.

Variable w : World.

(** [cmd_play] once the presence check has passed. *)
Lemma cmd_play_gate_open m chat s c arg rest s1 :
  in_group m = Some chat -> parts_of m = c :: arg :: rest ->
  assistant_in_group w chat s = (Ok true, s1) ->
  cmd_play w m s =
  match ytdlp_to_mp3 w (normalize_music_query arg)
          (add_event (EvReply m Text.searching) s1) with
  | (Raise e, s2) =>
      (Ok tt,
       add_event (EvEditText m (Text.resolve_failed (take 180 (str_of_exn e))))
         s2)
  | (Ok file_path, s2) => cmd_play_enqueue w m chat file_path s2
  end.
Proof.
  intros Hg Hp Hgate. unfold cmd_play. rewrite Hg, Hp. unfold bind at 1.
  rewrite Hgate. cbn [negb]. unfold bind, emit, modify, attempt.
  by destruct (ytdlp_to_mp3 w _ _) as [[p|e] s2].
Qed.

(** The presence check touches neither dictionary and drives neither the
    resolver nor the voice client. *)
Lemma assistant_in_group_quiet chat s :
  exists evs,
    snd (assistant_in_group w chat s) = add_events evs s
    /\ Forall (fun ev => is_resolver_op ev = false) evs
    /\ Forall (fun ev => is_call_op ev = false) evs.
Proof.
  rewrite assistant_in_group_run.
  destruct (ASSISTANT_ID s) as [[| |]|]; cbn [snd].
  1,4: exists []; by rewrite add_events_nil.
  all: eexists; split; [done |]; by repeat constructor.
Qed.

Lemma ytdlp_to_mp3_quiet q s :
  exists evs,
    snd (ytdlp_to_mp3 w q s) = add_events evs s
    /\ Forall (fun ev => is_call_op ev = false) evs.
Proof.
  rewrite ytdlp_to_mp3_run.
  destruct (w_makedirs w _ _); [| destruct (w_check_call w _ _)];
    eexists; (split; [done |]); by repeat constructor.
Qed.

End PlayRuns.

(** C2. In a group, for a play request that carries a query: when the
    presence check answers false, [cmd_play] returns normally after
    replying with the assistant-missing text; between the request and that
    reply only the calls of the check itself are issued, none of them a
    resolver step, and both dictionaries are as they were. *)
Theorem closed_gate_stops_play (w : World) (s : St) (m : Message) (chat : Z)
    (c arg : str) (rest : list str)
    (Hg : in_group m = Some chat) (Hp : parts_of m = c :: arg :: rest)
    (Hgate : fst (assistant_in_group w chat s) = Ok false) :
  exists s',
    cmd_play w m s = (Ok tt, s')
    /\ mem_queue s' = mem_queue s
    /\ mem_now s' = mem_now s
    /\ new_events s s'
       = new_events s (snd (assistant_in_group w chat s))
           ++ [EvReply m (Text.assistant_missing (ASSISTANT_LINK w)
                                                 (ASSISTANT_USERNAME w))]
    /\ Forall (fun ev => is_resolver_op ev = false) (new_events s s')
    /\ Forall (fun ev => is_call_op ev = false) (new_events s s').
Proof.
  unfold cmd_play. rewrite Hg, Hp. unfold bind.
  destruct (assistant_in_group_quiet w chat s) as (evs & Hs1 & Hres & Hcall).
  destruct (assistant_in_group w chat s) as [r s1].
  cbn [fst snd] in *. subst r s1. cbn [negb]. unfold emit, modify.
  norm_state. eexists. split; [done |].
  rewrite new_events_add_events, new_events_add_events.
  repeat split; try done.
  - apply Forall_app. split; [done | by repeat constructor].
  - apply Forall_app. split; [done | by repeat constructor].
Qed.

Lemma closed_gate_stops_play_witness :
  in_group (Sample.group_message 7 "/play song") = Some 7
  /\ parts_of (Sample.group_message 7 "/play song") = [py "/play"; py "song"]
  /\ fst (assistant_in_group Sample.absent 7 (init (Some 5))) = Ok false
  /\ exists s',
       cmd_play Sample.absent (Sample.group_message 7 "/play song")
         (init (Some 5)) = (Ok tt, s')
       /\ mem_queue s' = ∅.
Proof.
  split; [reflexivity |]. split; [reflexivity |]. split; [reflexivity |].
  destruct (closed_gate_stops_play Sample.absent (init (Some 5))
              (Sample.group_message 7 "/play song") 7 _ _ _
              eq_refl eq_refl eq_refl)
    as (s' & Hrun & Hq & _).
  by exists s'.
Defined.

(** ** Play: a failed resolution *)




(** ** Play: enqueue, and a failed join *)

(** The failure text of a join differs from the failure text of a
    resolution, whatever the diagnostics. *)
Lemma join_failed_is_not_resolve_failed (d d' : str) :
  Text.join_failed d <> Text.resolve_failed d'.
Proof. unfold Text.join_failed, Text.resolve_failed. simpl. congruence. Qed.

(** C7. In a group, past the gate, when the resolver returned [p], the
    queue was empty, and both the change of stream and the join raise:
    [cmd_play] still returns normally; [p] stays the only item of the queue
    and the current item; after the resolver the handler issues one change of
    stream, one join and the failure text, and nothing more (no second
    attempt); that text carries the join error cut to 180 characters and is
    never equal to a resolution-failure text. *)
Theorem failed_join_keeps_current (w : World) (s s1 s2 : St) (m : Message)
    (chat : Z) (c arg : str) (rest : list str) (p : str) (e0 e : exn)
    (Hg : in_group m = Some chat) (Hp : parts_of m = c :: arg :: rest)
    (Hgate : assistant_in_group w chat s = (Ok true, s1))
    (Hres : ytdlp_to_mp3 w (normalize_music_query arg)
              (add_event (EvReply m Text.searching) s1) = (Ok p, s2))
    (Hempty : get_queue s chat = [])
    (Hchange : w_change_stream w (trace s2 ++ [EvGetChat chat]) chat p
               = Some e0)
    (Hjoin : w_join_group_call w
               (trace s2 ++ [EvGetChat chat; EvChangeStream chat p]) chat p
             = Some e) :
  exists s',
    cmd_play w m s = (Ok tt, s')
    /\ mem_queue s' !! chat = Some [p]
    /\ mem_now s' !! chat = Some (Some p)
    /\ current s' chat = [p] /\ pending s' chat = []
    /\ new_events s2 s'
       = [EvGetChat chat; EvChangeStream chat p; EvJoinGroupCall chat p;
          EvEditText m (Text.join_failed (take 180 (str_of_exn e)))]
    /\ (forall d, Text.join_failed (take 180 (str_of_exn e))
                  <> Text.resolve_failed d).
Proof.
  rewrite (cmd_play_gate_open w m chat s c arg rest s1 Hg Hp Hgate), Hres.
  destruct (assistant_in_group_quiet w chat s) as (evs1 & Hs1 & _ & _).
  rewrite Hgate in Hs1. cbn [snd] in Hs1.
  destruct (ytdlp_to_mp3_quiet w (normalize_music_query arg)
              (add_event (EvReply m Text.searching) s1))
    as (evs2 & Hs2 & _).
  rewrite Hres in Hs2. cbn [snd] in Hs2.
  assert (Hq2 : get_queue s2 chat = []) by (by subst).
  rewrite cmd_play_enqueue_run, Hq2, ensure_join_and_play_run.
  cbn [trace set_now set_queue]. rewrite Hchange, Hjoin.
  eexists. split; [done |].
  split; [apply lookup_insert_eq |]. split; [apply lookup_insert_eq |].
  unfold current, pending. norm_state. autorewrite with mem.
  split; [done |]. split; [done |].
  split; [by erewrite new_events_trace by reflexivity |].
  intros d. apply join_failed_is_not_resolve_failed.
Qed.

Lemma failed_join_keeps_current_witness :
  exists s1 s2 p e0 e,
    in_group (Sample.group_message 7 "/play song") = Some 7
    /\ parts_of (Sample.group_message 7 "/play song") = [py "/play"; py "song"]
    /\ assistant_in_group Sample.no_voice_chat 7 (init (Some 5)) = (Ok true, s1)
    /\ ytdlp_to_mp3 Sample.no_voice_chat (normalize_music_query (py "song"))
         (add_event (EvReply (Sample.group_message 7 "/play song")
                       Text.searching) s1) = (Ok p, s2)
    /\ get_queue (init (Some 5)) 7 = []
    /\ w_change_stream Sample.no_voice_chat (trace s2 ++ [EvGetChat 7]) 7 p
       = Some e0
    /\ w_join_group_call Sample.no_voice_chat
         (trace s2 ++ [EvGetChat 7; EvChangeStream 7 p]) 7 p = Some e
    /\ exists s',
         cmd_play Sample.no_voice_chat (Sample.group_message 7 "/play song")
           (init (Some 5)) = (Ok tt, s')
         /\ current s' 7 = [p].
Proof.
  eexists _, _, _, _, _.
  split; [reflexivity |]. split; [reflexivity |].
  split; [reflexivity |]. split; [reflexivity |].
  split; [reflexivity |]. split; [reflexivity |]. split; [reflexivity |].
  destruct (failed_join_keeps_current Sample.no_voice_chat (init (Some 5)) _ _
              (Sample.group_message 7 "/play song") 7 _ _ _ _ _ _
              eq_refl eq_refl eq_refl eq_refl eq_refl eq_refl eq_refl)
    as (s' & Hrun & _ & _ & Hcur & _).
  by exists s'.
Defined.

Lemma filter_none {A} (f : A -> bool) (l : list A) :
  Forall (fun x => f x = false) l -> List.filter f l = [].
Proof.
  induction 1 as [|x l Hx _ IH]; [done |]. simpl. by rewrite Hx.
Qed.

(** C3, as the code has it. In a group, past the gate, when the resolver
    returned [p]: [cmd_play] returns normally and [p] is appended to the
    stored queue. If the queue was empty, [p] becomes the current item and
    the voice client is driven once for it (one change of stream, followed
    by a join only when that change raised); the text then says playing, or
    carries the join error. If the queue was not empty, the current item
    stays, no call on the voice client is issued, and the text says queued
    and names the file: it does not tell the position. *)
Theorem play_enqueues (w : World) (s s1 s2 : St) (m : Message)
    (chat : Z) (c arg : str) (rest : list str) (p : str)
    (Hg : in_group m = Some chat) (Hp : parts_of m = c :: arg :: rest)
    (Hgate : assistant_in_group w chat s = (Ok true, s1))
    (Hres : ytdlp_to_mp3 w (normalize_music_query arg)
              (add_event (EvReply m Text.searching) s1) = (Ok p, s2)) :
  exists s',
    cmd_play w m s = (Ok tt, s')
    /\ get_queue s' chat = get_queue s chat ++ [p]
    /\ match get_queue s chat with
       | [] =>
           current s' chat = [p]
           /\ new_events s2 s'
              = [EvGetChat chat; EvChangeStream chat p]
                  ++ match w_change_stream w (trace s2 ++ [EvGetChat chat])
                             chat p with
                     | None =>
                         [EvEditText m
                            (Text.playing (safe_basename (Some p)))]
                     | Some _ =>
                         [EvJoinGroupCall chat p;
                          EvEditText m
                            match w_join_group_call w
                                    (trace s2 ++ [EvGetChat chat;
                                                  EvChangeStream chat p])
                                    chat p with
                            | None => Text.playing (safe_basename (Some p))
                            | Some e =>
                                Text.join_failed (take 180 (str_of_exn e))
                            end]
                     end
           /\ List.filter is_call_op (new_events s s')
              = EvChangeStream chat p
                  :: match w_change_stream w (trace s2 ++ [EvGetChat chat])
                             chat p with
                     | None => []
                     | Some _ => [EvJoinGroupCall chat p]
                     end
       | _ :: _ =>
           get_now s' chat = get_now s chat
           /\ new_events s2 s'
              = [EvEditText m (Text.queued (safe_basename (Some p)))]
           /\ List.filter is_call_op (new_events s s') = []
       end.
Proof.
  rewrite (cmd_play_gate_open w m chat s c arg rest s1 Hg Hp Hgate), Hres.
  destruct (assistant_in_group_quiet w chat s) as (evs1 & Hs1 & _ & Hc1).
  rewrite Hgate in Hs1. cbn [snd] in Hs1.
  destruct (ytdlp_to_mp3_quiet w (normalize_music_query arg)
              (add_event (EvReply m Text.searching) s1))
    as (evs2 & Hs2 & Hc2).
  rewrite Hres in Hs2. cbn [snd] in Hs2.
  apply filter_none in Hc1, Hc2.
  assert (Hq2 : get_queue s2 chat = get_queue s chat) by (by subst).
  assert (Hn2 : get_now s2 chat = get_now s chat) by (by subst).
  assert (Ht2 : trace s2
                = trace s ++ evs1 ++ [EvReply m Text.searching] ++ evs2).
  { subst s2 s1. cbn [trace add_events add_event]. by rewrite <- !app_assoc. }
  rewrite cmd_play_enqueue_run, Hq2. clear Hres Hgate Hs1 Hs2.
  destruct (get_queue s chat) as [|a q] eqn:E.
  - rewrite ensure_join_and_play_run. cbn [trace set_now set_queue].
    destruct (w_change_stream w _ chat p) as [e0|];
      [destruct (w_join_group_call w _ chat p) as [e|] |].
    all: norm_state; eexists; split; [done |].
    all: unfold current; autorewrite with mem; split; [done |]; split; [done |].
    all: split; [by erewrite new_events_trace by reflexivity |].
    all: erewrite (new_events_trace _ s)
           by (cbn [trace add_events set_now set_queue]; rewrite Ht2;
               rewrite <- !app_assoc; reflexivity).
    all: rewrite !List.filter_app, Hc1, Hc2; done.
  - eexists. split; [done |]. autorewrite with mem.
    split; [done |]. split; [done |].
    split; [by erewrite new_events_trace by reflexivity |].
    erewrite (new_events_trace _ s)
      by (cbn [trace add_events set_now set_queue]; rewrite Ht2;
          rewrite <- !app_assoc; reflexivity).
    rewrite !List.filter_app, Hc1, Hc2. done.
Qed.

Lemma play_enqueues_witness :
  exists s1 s2 p,
    in_group (Sample.group_message 7 "/play song") = Some 7
    /\ parts_of (Sample.group_message 7 "/play song") = [py "/play"; py "song"]
    /\ assistant_in_group Sample.calm 7 Sample.one_queued = (Ok true, s1)
    /\ ytdlp_to_mp3 Sample.calm (normalize_music_query (py "song"))
         (add_event (EvReply (Sample.group_message 7 "/play song")
                       Text.searching) s1) = (Ok p, s2)
    /\ exists s',
         cmd_play Sample.calm (Sample.group_message 7 "/play song")
           Sample.one_queued = (Ok tt, s')
         /\ get_queue s' 7 = get_queue Sample.one_queued 7 ++ [p].
Proof.
  eexists _, _, _.
  split; [reflexivity |]. split; [reflexivity |].
  split; [vm_compute; reflexivity |]. split; [vm_compute; reflexivity |].
  destruct (play_enqueues Sample.calm Sample.one_queued _ _
              (Sample.group_message 7 "/play song") 7 _ _ _ _
              eq_refl eq_refl eq_refl eq_refl)
    as (s' & Hrun & Hq & _).
  by exists s'.
Defined.

(** C3, as stated, fails: the text sent for a song queued second is the text
    sent for the same song queued third, so that no reading of the outcome
    gives the position in the queue. *)
Lemma queued_text_hides_position :
  ~ exists position_of : option event -> nat,
      position_of
        (last (trace (serve Sample.calm Sample.one_queued
                        (ReqPlay (Sample.group_message 7 "/play song")))))
      = length (get_queue
                  (serve Sample.calm Sample.one_queued
                     (ReqPlay (Sample.group_message 7 "/play song"))) 7)
      /\ position_of
           (last (trace (serve Sample.calm Sample.two_queued
                           (ReqPlay (Sample.group_message 7 "/play song")))))
         = length (get_queue
                     (serve Sample.calm Sample.two_queued
                        (ReqPlay (Sample.group_message 7 "/play song"))) 7).
Proof.
  intros (position_of & H2 & H3).
  assert (Hsame :
    last (trace (serve Sample.calm Sample.one_queued
                   (ReqPlay (Sample.group_message 7 "/play song"))))
    = last (trace (serve Sample.calm Sample.two_queued
                     (ReqPlay (Sample.group_message 7 "/play song")))))
    by (vm_compute; reflexivity).
  rewrite Hsame in H2. rewrite H2 in H3. vm_compute in H3. discriminate H3.
Qed.

(** * More of [main.py] *)

(** ** White space *)

Lemma lstrip_spec (s : str) :
  exists ws,
    s = ws ++ PyStr.lstrip s
    /\ Forall (fun c => PyStr.isspace c = true) ws
    /\ forall c r, PyStr.lstrip s = c :: r -> PyStr.isspace c = false.
Proof.
  induction s as [|c s (ws & Hs & Hws & Hhead)]; simpl.
  - exists []. by repeat split.
  - destruct (PyStr.isspace c) eqn:E.
    + exists (c :: ws). repeat split; [by rewrite Hs at 1 | by constructor | done].
    + exists []. repeat split; [done |]. by intros ? ? [= <- <-].
Qed.

Lemma lstrip_spaces (ws s : str) :
  Forall (fun c => PyStr.isspace c = true) ws ->
  PyStr.lstrip (ws ++ s) = PyStr.lstrip s.
Proof. induction 1 as [|c ws Hc _ IH]; [done |]. simpl. by rewrite Hc. Qed.

Lemma lstrip_all_spaces (ws : str) :
  Forall (fun c => PyStr.isspace c = true) ws -> PyStr.lstrip ws = [].
Proof.
  intros H. rewrite <- (app_nil_r ws). by rewrite lstrip_spaces.
Qed.

Lemma lstrip_fixed (c : N) (s : str) :
  PyStr.isspace c = false -> PyStr.lstrip (c :: s) = c :: s.
Proof. intros H. simpl. by rewrite H. Qed.

Lemma rstrip_spec (s : str) :
  exists ws,
    s = PyStr.rstrip s ++ ws
    /\ Forall (fun c => PyStr.isspace c = true) ws
    /\ forall f c, PyStr.rstrip s = f ++ [c] -> PyStr.isspace c = false.
Proof.
  unfold PyStr.rstrip.
  destruct (lstrip_spec (reverse s)) as (ws & Hs & Hws & Hhead).
  exists (reverse ws). repeat split.
  - rewrite <- reverse_app, <- Hs. by rewrite reverse_involutive.
  - by apply Forall_reverse.
  - intros f c Hf. apply (Hhead c (reverse f)).
    rewrite <- (reverse_involutive (PyStr.lstrip (reverse s))), Hf.
    by rewrite reverse_app.
Qed.

Lemma rstrip_fixed (s : str) (c : N) :
  PyStr.isspace c = false -> PyStr.rstrip (s ++ [c]) = s ++ [c].
Proof.
  intros H. unfold PyStr.rstrip. rewrite reverse_app. simpl.
  rewrite H. change (c :: reverse s) with ([c] ++ reverse s).
  by rewrite reverse_app, reverse_involutive.
Qed.

(** [s.strip()] cuts white space off both ends and nothing else; what is
    left neither starts nor ends with white space. *)
Lemma strip_spec (s : str) :
  exists ws1 ws2,
    s = ws1 ++ PyStr.strip s ++ ws2
    /\ Forall (fun c => PyStr.isspace c = true) ws1
    /\ Forall (fun c => PyStr.isspace c = true) ws2
    /\ (forall c r, PyStr.strip s = c :: r -> PyStr.isspace c = false)
    /\ (forall f c, PyStr.strip s = f ++ [c] -> PyStr.isspace c = false).
Proof.
  unfold PyStr.strip.
  destruct (lstrip_spec s) as (ws1 & Hs1 & Hws1 & Hhead).
  destruct (rstrip_spec (PyStr.lstrip s)) as (ws2 & Hs2 & Hws2 & Hlast).
  exists ws1, ws2. repeat split; try done.
  - by rewrite <- Hs2.
  - intros c r Hc. apply (Hhead c (r ++ ws2)). by rewrite Hs2, Hc.
Qed.

Lemma strip_fixed (s : str) :
  (forall c r, s = c :: r -> PyStr.isspace c = false) ->
  (forall f c, s = f ++ [c] -> PyStr.isspace c = false) ->
  PyStr.strip s = s.
Proof.
  intros Hhead Hlast. unfold PyStr.strip.
  destruct s as [|c r]; [done |].
  rewrite lstrip_fixed by by apply (Hhead c r).
  destruct (exists_last (l := c :: r)) as (f & d & Hf); [done |].
  rewrite Hf. apply rstrip_fixed. by apply (Hlast f d).
Qed.

Lemma sub_spaces_from_shape (s : str) :
  forall (b : bool) (l1 l2 : str) (c : N),
    PyStr.sub_spaces_from b s = l1 ++ c :: l2 ->
    PyStr.isspace c = true ->
    c = 32%N /\ (l1 = [] -> b = false)
    /\ forall d l, l2 = d :: l -> PyStr.isspace d = false.
Proof.
  induction s as [|c0 s IH]; intros b l1 l2 c Hq Hc; simpl in Hq.
  - by destruct l1.
  - destruct (PyStr.isspace c0) eqn:E0; [destruct b |].
    + by apply (IH true l1).
    + destruct l1 as [|x l1]; simpl in Hq; injection Hq as Hx Hrest.
      * subst c. repeat split; try done. intros d l Hl.
        destruct (PyStr.isspace d) eqn:Ed; [| done].
        rewrite Hl in Hrest.
        destruct (IH true [] l d Hrest Ed) as (_ & Hb & _).
        by specialize (Hb eq_refl).
      * destruct (IH true l1 l2 c Hrest Hc) as (-> & _ & Hnext).
        by repeat split.
    + destruct l1 as [|x l1]; simpl in Hq; injection Hq as Hx Hrest.
      * subst c. congruence.
      * destruct (IH false l1 l2 c Hrest Hc) as (-> & _ & Hnext).
        by repeat split.
Qed.

Lemma sub_spaces_from_fixed (b : bool) (q : str) :
  (forall l1 c l2,
     q = l1 ++ c :: l2 -> PyStr.isspace c = true ->
     c = 32%N /\ (l1 = [] -> b = false)
     /\ forall d l, l2 = d :: l -> PyStr.isspace d = false) ->
  PyStr.sub_spaces_from b q = q.
Proof.
  revert b. induction q as [|c0 q IH]; intros b H; [done |]. simpl.
  destruct (PyStr.isspace c0) eqn:E0.
  - destruct (H [] c0 q eq_refl E0) as (-> & Hb & Hnext).
    rewrite (Hb eq_refl). f_equal. apply IH. intros l1 c l2 -> Hc.
    destruct (H (32%N :: l1) c l2 eq_refl Hc) as (-> & _ & Hn).
    repeat split; [| done]. intros ->.
    specialize (Hnext _ _ eq_refl). congruence.
  - f_equal. apply IH. intros l1 c l2 -> Hc.
    destruct (H (c0 :: l1) c l2 eq_refl Hc) as (-> & _ & Hn). by repeat split.
Qed.

(** ** [normalize_music_query] *)

Lemma normalize_shape (text l1 l2 : str) (c : N) :
  normalize_music_query text = l1 ++ c :: l2 ->
  PyStr.isspace c = true ->
  c = 32%N /\ l1 <> []
  /\ exists d l, l2 = d :: l /\ PyStr.isspace d = false.
Proof.
  unfold normalize_music_query. intros Hq Hc.
  destruct (strip_spec (PyStr.sub_spaces text))
    as (ws1 & ws2 & Hs & _ & _ & Hhead & Hlast).
  rewrite Hq in Hs, Hhead, Hlast.
  assert (Hsub : PyStr.sub_spaces_from false text
                 = (ws1 ++ l1) ++ c :: (l2 ++ ws2)).
  { unfold PyStr.sub_spaces in Hs. rewrite Hs. by rewrite <- !app_assoc. }
  destruct (sub_spaces_from_shape text false _ _ c Hsub Hc)
    as (-> & _ & Hnext).
  split; [done |]. split.
  - intros ->. by rewrite (Hhead 32%N l2 eq_refl) in Hc.
  - destruct l2 as [|d l]; [by rewrite (Hlast l1 32%N eq_refl) in Hc |].
    exists d, l. split; [done |]. by apply (Hnext d (l ++ ws2)).
Qed.

(** X1. In a normalised query every white-space character is a single
    space (U+0020) standing between two characters that are not white
    space: nothing else is left of tabs, line breaks or runs of blanks, and
    the query neither starts nor ends with a blank. *)
Theorem normalize_leaves_single_inner_spaces (text l1 l2 : str) (c : N) :
  normalize_music_query text = l1 ++ c :: l2 ->
  PyStr.isspace c = true ->
  c = 32%N
  /\ (exists f a, l1 = f ++ [a] /\ PyStr.isspace a = false)
  /\ (exists d l, l2 = d :: l /\ PyStr.isspace d = false).
Proof.
  intros Hq Hc.
  destruct (normalize_shape text l1 l2 c Hq Hc) as (-> & Hne & Hnext).
  split; [done |]. split; [| done].
  destruct (exists_last (l := l1)) as (f & a & ->); [done |].
  exists f, a. split; [done |].
  destruct (PyStr.isspace a) eqn:Ea; [| done].
  rewrite <- app_assoc in Hq.
  destruct (normalize_shape text f (32%N :: l2) a Hq Ea)
    as (_ & _ & (d & l & [= <- _] & Hd)).
  congruence.
Qed.

Lemma normalize_leaves_single_inner_spaces_witness :
  normalize_music_query (py "  my   song ") = py "my" ++ 32%N :: py "song"
  /\ PyStr.isspace 32 = true
  /\ exists f a, py "my" = f ++ [a] /\ PyStr.isspace a = false.
Proof.
  split; [reflexivity |]. split; [reflexivity |].
  by destruct (normalize_leaves_single_inner_spaces
                 (py "  my   song ") (py "my") (py "song") 32%N
                 eq_refl eq_refl) as (_ & H & _).
Defined.

Lemma normalize_fixed (q : str) :
  (forall l1 c l2,
     q = l1 ++ c :: l2 -> PyStr.isspace c = true ->
     c = 32%N /\ l1 <> []
     /\ exists d l, l2 = d :: l /\ PyStr.isspace d = false) ->
  normalize_music_query q = q.
Proof.
  intros Hshape. unfold normalize_music_query, PyStr.sub_spaces.
  rewrite sub_spaces_from_fixed.
  - apply strip_fixed.
    + intros c r Hq. destruct (PyStr.isspace c) eqn:E; [| done].
      by destruct (Hshape [] c r Hq E) as (_ & Hne & _).
    + intros f c Hq. destruct (PyStr.isspace c) eqn:E; [| done].
      by destruct (Hshape f c [] Hq E) as (_ & _ & (d & l & [=] & _)).
  - intros l1 c l2 Hq Hc.
    destruct (Hshape l1 c l2 Hq Hc) as (-> & Hne & (d & l & -> & Hd)).
    split; [done |]. split; [done |]. by intros ? ? [= <- <-].
Qed.

(** X2. Normalising twice is normalising once. *)
Theorem normalize_is_idempotent (text : str) :
  normalize_music_query (normalize_music_query text)
  = normalize_music_query text.
Proof.
  apply normalize_fixed. intros l1 c l2 Hq Hc.
  by apply (normalize_shape text).
Qed.

(** ** The three handlers, case by case *)

Lemma parts_of_second (m : Message) (c arg : str) (rest : list str) :
  parts_of m = c :: arg :: rest ->
  exists d a, arg = d :: a /\ PyStr.isspace d = false.
Proof.
  unfold parts_of, PyStr.split_maxsplit1.
  destruct (PyStr.lstrip (default [] (m_text m))) as [|x t]; [done |].
  destruct (PyStr.span_word (x :: t)) as [wd r].
  destruct (lstrip_spec r) as (ws & _ & _ & Hhead).
  destruct (PyStr.lstrip r) as [|d a]; [done |].
  intros [= _ <- _]. exists d, a. split; [done |]. by apply (Hhead d a).
Qed.

Lemma lstrip_keeps_last (s : str) (c : N) :
  PyStr.isspace c = false -> PyStr.lstrip (s ++ [c]) <> [].
Proof.
  intros Hc. induction s as [|x s IH]; simpl.
  - by rewrite Hc.
  - by destruct (PyStr.isspace x).
Qed.

Lemma normalize_nonempty (d : N) (a : str) :
  PyStr.isspace d = false -> normalize_music_query (d :: a) <> [].
Proof.
  intros Hd. unfold normalize_music_query, PyStr.sub_spaces. simpl.
  rewrite Hd. unfold PyStr.strip. rewrite lstrip_fixed by done.
  unfold PyStr.rstrip. rewrite reverse_cons.
  intros H. apply (f_equal reverse) in H. rewrite reverse_involutive in H.
  by apply (lstrip_keeps_last _ d Hd) in H.
Qed.

Ltac each_event :=
  repeat match goal with
         | |- Forall _ (_ :: _) => constructor
         | |- Forall _ [] => constructor
         end;
  try done.

Section Cases.

Variable w : World.

Lemma cmd_play_unfold m s :
  cmd_play w m s =
  match in_group m with
  | None => (Ok tt, add_events [EvReply m Text.not_group_play] s)
  | Some chat =>
      match parts_of m with
      | _ :: arg :: _ =>
          match assistant_in_group w chat s with
          | (Ok true, s1) =>
              match ytdlp_to_mp3 w (normalize_music_query arg)
                      (add_events [EvReply m Text.searching] s1) with
              | (Raise e, s2) =>
                  (Ok tt,
                   add_events
                     [EvEditText m
                        (Text.resolve_failed (take 180 (str_of_exn e)))] s2)
              | (Ok file_path, s2) => cmd_play_enqueue w m chat file_path s2
              end
          | (Ok false, s1) =>
              (Ok tt,
               add_events
                 [EvReply m (Text.assistant_missing (ASSISTANT_LINK w)
                                                    (ASSISTANT_USERNAME w))]
                 s1)
          | (Raise e, s1) => (Raise e, s1)
          end
      | _ => (Ok tt, add_events [EvReply m Text.usage_play] s)
      end
  end.
Proof.
  unfold cmd_play. destruct (in_group m) as [chat|]; [| done].
  destruct (parts_of m) as [|c [|arg rest]]; try done.
  unfold bind at 1. destruct (assistant_in_group w chat s) as [[[]|e] s1];
    try done.
  cbn [negb]. unfold bind, emit, modify, attempt.
  by destruct (ytdlp_to_mp3 w _ _) as [[p|e] s2].
Qed.

(** Everything [cmd_play] can do, in one statement. *)
Lemma cmd_play_summary m s :
  exists evs op,
    cmd_play w m s = (Ok tt, add_events evs (apply_op op s))
    /\ Forall (play_may_issue m s) evs
    /\ (op = QNone
        \/ exists chat p,
             op = QEnqueue chat p /\ in_group m = Some chat
             /\ has_assistant_id s /\ resolved w p).
Proof.
  rewrite cmd_play_unfold.
  destruct (in_group m) as [chat|] eqn:Hg;
    [| exists [EvReply m Text.not_group_play], QNone;
       split; [done |]; split; [by repeat constructor | by left]].
  destruct (parts_of m) as [|c [|arg rest]] eqn:Hp;
    try (exists [EvReply m Text.usage_play], QNone;
         split; [done |]; split; [by repeat constructor | by left]).
  destruct (parts_of_second m c arg rest Hp) as (d & a & Harg & Hd).
  assert (Hquery : exists q, ytdlp_cmd (normalize_music_query arg) = ytdlp_cmd q
                     /\ q <> [] /\ normalize_music_query q = q).
  { exists (normalize_music_query arg). split; [done |]. split.
    - rewrite Harg. by apply normalize_nonempty.
    - apply normalize_fixed. intros l1 x l2. apply normalize_shape. }
  rewrite assistant_in_group_run.
  assert (Hcase : has_assistant_id s
                  \/ ASSISTANT_ID s = None \/ ASSISTANT_ID s = Some 0).
  { unfold has_assistant_id. destruct (ASSISTANT_ID s) as [[| |]|]; auto. }
  destruct Hcase as [Hid | Hno].
  2: { exists [EvReply m (Text.assistant_missing (ASSISTANT_LINK w)
                                            (ASSISTANT_USERNAME w))], QNone.
       split; [by destruct Hno as [-> | ->] |].
       split; [by repeat constructor | by left]. }
  set (issue := play_may_issue m s).
  assert (I1 : forall t, issue (EvReply m t)) by done.
  assert (I2 : forall t, issue (EvEditText m t)) by done.
  assert (I3 : issue (EvGetChat chat)) by done.
  assert (I4 : forall u, issue (EvGetChatMember chat u)) by done.
  assert (I5 : forall f, issue (EvChangeStream chat f)) by done.
  assert (I6 : forall f, issue (EvJoinGroupCall chat f)) by done.
  assert (I7 : issue (EvMakedirs tg_music_dir)) by done.
  assert (I8 : issue (EvListdir tg_music_dir)) by done.
  assert (I9 : issue (EvCheckCall (ytdlp_cmd (normalize_music_query arg))))
    by done.
  clearbody issue.
  assert (Hgate : exists aid,
             ASSISTANT_ID s = Some aid /\ aid <> 0).
  { unfold has_assistant_id in Hid.
    destruct (ASSISTANT_ID s) as [[| |]|]; try done; by eexists. }
  destruct Hgate as (aid & Haid & Hnz). rewrite Haid.
  replace (match aid with
           | 0 => (Ok false, s)
           | _ =>
               (Ok (bool_decide
                      (w_get_chat_member w (trace s ++ [EvGetChat chat])
                         chat aid = None)),
                add_events [EvGetChat chat; EvGetChatMember chat aid] s)
           end)
    with (Ok (bool_decide
                (w_get_chat_member w (trace s ++ [EvGetChat chat])
                   chat aid = None)),
          add_events [EvGetChat chat; EvGetChatMember chat aid] s)
    by (by destruct aid).
  case_bool_decide as Hmember;
    [| norm_state; eexists _, QNone; split; [reflexivity |];
       split; [by repeat constructor | by left]].
  rewrite ytdlp_to_mp3_run. cbn [trace add_events].
  destruct (w_makedirs w _ _) as [e1|] eqn:Hmk;
    [norm_state; eexists _, QNone; split; [reflexivity |];
     split; [by repeat constructor | by left] |].
  destruct (w_check_call w _ _) as [e2|] eqn:Hck;
    [norm_state; eexists _, QNone; split; [reflexivity |];
     split; [by repeat constructor | by left] |].
  cbn zeta. destruct (w_listdir_error w _ _) as [e5|] eqn:Hls;
    [norm_state; eexists _, QNone; split; [reflexivity |];
     split; [by repeat constructor | by left] |].
  destruct (sort_key_error w _ _) as [e6|] eqn:Hkeys;
    [norm_state; eexists _, QNone; split; [reflexivity |];
     split; [by repeat constructor | by left] |].
  destruct (mp3_files w _ _) as [|f fs] eqn:Hfiles;
    [norm_state; eexists _, QNone; split; [reflexivity |];
     split; [by repeat constructor | by left] |].
  assert (Hres : resolved w (OsPath.join tg_music_dir f)).
  { exists (normalize_music_query arg),
      (add_events [EvReply m Text.searching]
         (add_events [EvGetChat chat; EvGetChatMember chat aid] s)).
    rewrite ytdlp_to_mp3_run. cbn [trace add_events].
    rewrite Hmk, Hck. cbn zeta. by rewrite Hls, Hkeys, Hfiles. }
  rewrite cmd_play_enqueue_run. norm_state.
  destruct (get_queue s chat) as [|x q] eqn:Hq;
    [rewrite ensure_join_and_play_run;
     cbn [trace add_events set_now set_queue];
     destruct (w_change_stream w _ _ _) as [e3|];
     [destruct (w_join_group_call w _ _ _) as [e4|] |] |].
  all: norm_state; eexists _, (QEnqueue chat _); cbn [apply_op];
    rewrite Hq; (split; [reflexivity |]);
    (split; [by repeat constructor | right; by eexists _, _]).
Qed.

Lemma cmd_skip_summary m s :
  exists evs op,
    cmd_skip w m s = (Ok tt, add_events evs (apply_op op s))
    /\ Forall (skip_may_issue m s) evs
    /\ (op = QNone \/ exists chat, op = QSkip chat /\ in_group m = Some chat).
Proof.
  rewrite cmd_skip_run.
  destruct (in_group m) as [chat|] eqn:Hg;
    [| exists [EvReply m Text.not_group], QNone;
       split; [done |]; split; [by repeat constructor | by left]].
  destruct (get_queue s chat) as [|cur [|next q]] eqn:Hq.
  - exists [EvReply m Text.no_queue], QNone.
    split; [done |]. split; [by repeat constructor | by left].
  - eexists _, (QSkip chat). cbn [apply_op]. rewrite Hq.
    split; [reflexivity |]. split; [| right; by eexists].
    each_event; [exists chat | simpl]; by rewrite Hq.
  - assert (I0 : skip_may_issue m s (EvGetChat chat))
      by (split; [done | rewrite Hq; simpl; lia]).
    assert (I1 : skip_may_issue m s (EvRemove cur))
      by (exists chat; by rewrite Hq).
    assert (I2 : skip_may_issue m s (EvChangeStream chat next))
      by (split; [done | by rewrite Hq]).
    assert (I3 : skip_may_issue m s (EvJoinGroupCall chat next))
      by (split; [done | by rewrite Hq]).
    rewrite ensure_join_and_play_run.
    cbn [trace add_events set_now set_queue].
    destruct (w_change_stream w _ _ _) as [e3|];
      [destruct (w_join_group_call w _ _ _) as [e4|] |].
    all: cbv iota beta; norm_state.
    all: eexists _, (QSkip chat); cbn [apply_op]; rewrite Hq.
    all: split; [reflexivity |]; split; [| right; by eexists].
    all: each_event.
Qed.

Lemma cmd_stop_summary m s :
  exists evs op,
    cmd_stop w m s = (Ok tt, add_events evs (apply_op op s))
    /\ Forall (stop_may_issue m s) evs
    /\ (op = QNone \/ exists chat, op = QStop chat /\ in_group m = Some chat).
Proof.
  rewrite cmd_stop_run.
  destruct (in_group m) as [chat|] eqn:Hg;
    [| exists [EvReply m Text.not_group], QNone;
       split; [done |]; split; [by repeat constructor | by left]].
  eexists _, (QStop chat). split; [reflexivity |].
  split; [| right; by eexists].
  apply Forall_app. split; [| by repeat constructor].
  apply Forall_fmap, Forall_forall. intros p Hp. by exists chat.
Qed.

(** [play_next] on its own: the calls of one leave, or of one
    [ensure_join_and_play]. *)
Lemma play_next_summary chat s :
  exists r evs,
    play_next w chat s = (r, add_events evs (apply_op (QAdvance chat) s))
    /\ Forall (fun ev =>
                 match ev with
                 | EvLeaveGroupCall c => c = chat /\ get_queue s chat = []
                 | EvGetChat c => c = chat /\ get_queue s chat <> []
                 | EvChangeStream c p | EvJoinGroupCall c p =>
                     c = chat /\ head (get_queue s chat) = Some p
                 | _ => False
                 end) evs.
Proof.
  rewrite play_next_run. cbn [apply_op].
  destruct (get_queue s chat) as [|f q] eqn:Hq.
  - eexists _, _. split; [reflexivity |]. by each_event.
  - rewrite ensure_join_and_play_run. cbn [trace set_now].
    destruct (w_change_stream w _ _ _) as [e3|]; eexists _, _;
      (split; [reflexivity |]); by each_event.
Qed.

End Cases.

(** ** [safe_basename] *)

Lemma remove_char_gone (c : N) (s : str) : c ∉ remove_char c s.
Proof.
  unfold remove_char. rewrite list_elem_of_In, filter_In.
  intros [_ H]. by rewrite N.eqb_refl in H.
Qed.

Lemma remove_char_subset (c x : N) (s : str) : x ∈ remove_char c s -> x ∈ s.
Proof.
  unfold remove_char. rewrite !list_elem_of_In, filter_In. by intros [H _].
Qed.

Lemma remove_char_absent (c : N) (s : str) : c ∉ s -> remove_char c s = s.
Proof.
  induction s as [|x s IH]; [done |]. intros Hc. simpl.
  apply not_elem_of_cons in Hc as [Hx Hs].
  destruct (N.eqb_spec x c) as [-> | _]; [done |]. simpl. by rewrite IH.
Qed.

Lemma basename_from_no_slash (acc s : str) :
  47%N ∉ acc -> 47%N ∉ OsPath.basename_from acc s.
Proof.
  revert acc. induction s as [|c s IH]; intros acc Hacc; simpl; [done |].
  destruct (N.eqb_spec c 47) as [-> | Hc].
  - apply IH. apply not_elem_of_nil.
  - apply IH. rewrite elem_of_app, list_elem_of_singleton. intros [H | H]; auto.
Qed.

Lemma basename_from_plain (acc f : str) :
  47%N ∉ f -> OsPath.basename_from acc f = acc ++ f.
Proof.
  revert acc. induction f as [|c f IH]; intros acc Hf; simpl.
  - by rewrite app_nil_r.
  - apply not_elem_of_cons in Hf as [Hc Hf].
    destruct (N.eqb_spec c 47) as [-> | _]; [done |].
    rewrite IH by done. by rewrite <- app_assoc.
Qed.

Lemma basename_from_after_slash (acc dir f : str) :
  OsPath.basename_from acc (dir ++ 47%N :: f) = OsPath.basename_from [] f.
Proof.
  revert acc. induction dir as [|c dir IH]; intros acc; simpl; [done |].
  by destruct (c =? 47)%N.
Qed.

(** X3. The name that [safe_basename] puts into a text never holds a slash,
    a [<] or a [>], whatever the path, [None] and the empty path included. *)
Theorem safe_basename_has_no_slash_or_angle (path : option str) :
  (47%N ∉ safe_basename path)
  /\ (60%N ∉ safe_basename path)
  /\ (62%N ∉ safe_basename path).
Proof.
  assert (Hdash : forall c : N, c <> 8212%N -> c ∉ [8212%N]).
  { intros c Hc H. by apply list_elem_of_singleton in H. }
  destruct path as [[|c p]|]; simpl; try (repeat split; by apply Hdash).
  set (b := OsPath.basename (c :: p)).
  repeat split.
  - intros H. do 2 apply remove_char_subset in H.
    by apply (basename_from_no_slash [] (c :: p) (not_elem_of_nil _)).
  - intros H. apply remove_char_subset in H. by apply remove_char_gone in H.
  - apply remove_char_gone.
Qed.

(** X4. The name shown for a file of the download directory is its
    directory entry without [<] and [>]: joining an entry to
    [/tmp/tg_music], as the resolver does, and taking [safe_basename], as
    the handlers do, gives the entry back when it holds neither of them. *)
Theorem safe_basename_of_joined_entry (f : str)
    (Hplain : 47%N ∉ f) :
  safe_basename (Some (OsPath.join tg_music_dir f))
  = remove_char 62 (remove_char 60 f)
  /\ (60%N ∉ f -> 62%N ∉ f ->
      safe_basename (Some (OsPath.join tg_music_dir f)) = f).
Proof.
  assert (Hjoin : OsPath.join tg_music_dir f = tg_music_dir ++ 47%N :: f).
  { unfold OsPath.join.
    assert (Hstart : PyStr.startswith f (py "/") = false).
    { change (py "/") with [47%N]. destruct f as [|c f]; [done |].
      apply not_elem_of_cons in Hplain as [Hc _]. cbn [PyStr.startswith].
      by destruct (N.eqb_spec 47 c) as [<- | _]. }
    assert (Hend : bool_decide (tg_music_dir = [])
                   || PyStr.endswith tg_music_dir (py "/") = false)
      by (vm_compute; reflexivity).
    by rewrite Hstart, Hend. }
  assert (Hname : safe_basename (Some (OsPath.join tg_music_dir f))
                  = remove_char 62 (remove_char 60 f)).
  { rewrite Hjoin.
    assert (Hcons : exists c p, tg_music_dir ++ 47%N :: f = c :: p)
      by (by eexists _, _).
    destruct Hcons as (c & p & Hcp). rewrite Hcp. cbn [safe_basename].
    rewrite <- Hcp. unfold OsPath.basename.
    by rewrite basename_from_after_slash, basename_from_plain. }
  split; [done |]. intros H60 H62.
  rewrite Hname, (remove_char_absent 60 f H60). by apply remove_char_absent.
Qed.

Lemma safe_basename_of_joined_entry_witness :
  (47%N ∉ py "My Song_abc.mp3")
  /\ safe_basename (Some (OsPath.join tg_music_dir (py "My Song_abc.mp3")))
     = py "My Song_abc.mp3".
Proof.
  assert (H : forall c : N, bool_decide (c ∉ py "My Song_abc.mp3") = true
                            -> c ∉ py "My Song_abc.mp3")
    by (intros c; apply bool_decide_eq_true_1).
  split; [by apply H |].
  apply (safe_basename_of_joined_entry (py "My Song_abc.mp3"));
    by apply H.
Defined.

(** ** What is handed to [yt-dlp] *)

(** X5. The last argument of the [yt-dlp] command always starts with
    [http://], [https://] or [ytsearch1:], so that no input, not even one
    that starts with a dash, is read by [yt-dlp] as an option; the seven
    arguments before it are fixed. *)
Theorem ytdlp_target_is_never_an_option (q : str) :
  (exists rest, ytdlp_target q = py "http://" ++ rest
                \/ ytdlp_target q = py "https://" ++ rest
                \/ ytdlp_target q = py "ytsearch1:" ++ rest)
  /\ head (ytdlp_target q) <> Some 45%N
  /\ take 7 (ytdlp_cmd q)
     = [py "yt-dlp"; py "-x"; py "--audio-format"; py "mp3";
        py "--no-playlist"; py "-o"; outtmpl]
  /\ drop 7 (ytdlp_cmd q) = [ytdlp_target q].
Proof.
  assert (Hprefix : exists rest,
             ytdlp_target q = py "http://" ++ rest
             \/ ytdlp_target q = py "https://" ++ rest
             \/ ytdlp_target q = py "ytsearch1:" ++ rest).
  { unfold ytdlp_target, is_url.
    destruct (PyStr.startswith q (py "http://")) eqn:E1.
    - apply startswith_spec in E1 as [rest ->]. exists rest. by left.
    - destruct (PyStr.startswith q (py "https://")) eqn:E2; simpl.
      + apply startswith_spec in E2 as [rest ->]. exists rest. right. by left.
      + exists q. right. by right. }
  split; [exact Hprefix |]. split; [| by split].
  by destruct Hprefix as (rest & [-> | [-> | ->]]).
Qed.

(** ** Play without a query *)

Lemma span_word_spec (word ws : str) :
  Forall (fun c => PyStr.isspace c = false) word ->
  Forall (fun c => PyStr.isspace c = true) ws ->
  PyStr.span_word (word ++ ws) = (word, ws).
Proof.
  intros Hword Hws. induction Hword as [|c word Hc _ IH]; simpl.
  - destruct Hws as [|c ws Hc _]; [done |]. simpl. by rewrite Hc.
  - by rewrite Hc, IH.
Qed.

Lemma split_of_one_word (ws1 word ws2 : str) :
  Forall (fun c => PyStr.isspace c = true) ws1 ->
  Forall (fun c => PyStr.isspace c = false) word ->
  Forall (fun c => PyStr.isspace c = true) ws2 ->
  PyStr.split_maxsplit1 (ws1 ++ word ++ ws2)
  = match word with [] => [] | _ => [word] end.
Proof.
  intros H1 Hw H2. unfold PyStr.split_maxsplit1. rewrite lstrip_spaces by done.
  destruct word as [|c word]; simpl app.
  - by rewrite lstrip_all_spaces.
  - pose proof (Forall_inv Hw) as Hc. rewrite lstrip_fixed by done.
    change (c :: word ++ ws2) with ((c :: word) ++ ws2).
    rewrite span_word_spec by done. by rewrite lstrip_all_spaces.
Qed.

(** X6. In a group, a [/play] that carries no second word (no text at all,
    the command alone, the command followed by white space) gets the usage
    text and nothing else happens: no presence check, no download, and the
    state is the one before with that reply recorded. *)
Theorem play_without_query_only_explains (w : World) (s : St) (m : Message)
    (chat : Z) (ws1 word ws2 : str)
    (Hg : in_group m = Some chat)
    (Htext : default [] (m_text m) = ws1 ++ word ++ ws2)
    (Hws1 : Forall (fun c => PyStr.isspace c = true) ws1)
    (Hword : Forall (fun c => PyStr.isspace c = false) word)
    (Hws2 : Forall (fun c => PyStr.isspace c = true) ws2) :
  cmd_play w m s = (Ok tt, add_event (EvReply m Text.usage_play) s).
Proof.
  rewrite cmd_play_unfold, Hg. unfold parts_of.
  rewrite Htext, split_of_one_word by done.
  by destruct word.
Qed.

Lemma play_without_query_only_explains_witness :
  in_group (Sample.group_message 7 "/play   ") = Some 7
  /\ default [] (m_text (Sample.group_message 7 "/play   "))
     = [] ++ py "/play" ++ py "   "
  /\ cmd_play Sample.calm (Sample.group_message 7 "/play   ") (init (Some 5))
     = (Ok tt,
        add_event (EvReply (Sample.group_message 7 "/play   ") Text.usage_play)
          (init (Some 5))).
Proof.
  split; [reflexivity |]. split; [reflexivity |].
  apply (play_without_query_only_explains Sample.calm (init (Some 5))
           (Sample.group_message 7 "/play   ") 7 [] (py "/play") (py "   "));
    try reflexivity; by repeat constructor.
Defined.

(** ** What the handlers never do *)

Lemma trace_apply_op (op : queue_op) (s : St) : trace (apply_op op s) = trace s.
Proof.
  destruct op as [|c p|c|c|c]; simpl; try done;
    by destruct (get_queue s c).
Qed.

Lemma new_events_after_op (evs : list event) (op : queue_op) (s : St) :
  new_events s (add_events evs (apply_op op s)) = evs.
Proof. apply new_events_trace. simpl. by rewrite trace_apply_op. Qed.

Lemma lookup_apply_op_other (op : queue_op) (s : St) (chat : Z) :
  op_chat op <> Some chat ->
  mem_queue (apply_op op s) !! chat = mem_queue s !! chat
  /\ mem_now (apply_op op s) !! chat = mem_now s !! chat.
Proof.
  intros Hne.
  assert (Hc : forall c, op_chat op = Some c -> c <> chat) by congruence.
  destruct op as [|c p|c|c|c]; simpl; try done;
    specialize (Hc c eq_refl);
    try destruct (get_queue s c); simpl;
    by rewrite ?lookup_insert_ne.
Qed.

(** X7. Whatever the message, the state and the world, every call that
    [cmd_play] issues is one of these: a reply or an edit on the message at
    hand; a lookup or a stream call for the chat of the message;
    [os.makedirs] and [os.listdir] on [/tmp/tg_music]; the [yt-dlp] command
    for a query that is not empty and is normalised. It never leaves a call
    and never removes a file, and without an assistant id it issues nothing
    but the reply. *)
Theorem cmd_play_issues_only (w : World) (m : Message) (s : St) (ev : event) :
  ev ∈ new_events s (snd (cmd_play w m s)) -> play_may_issue m s ev.
Proof.
  destruct (cmd_play_summary w m s) as (evs & op & -> & Hevs & _).
  cbn [snd]. rewrite new_events_after_op. intros Hin.
  by apply (proj1 (Forall_forall _ _) Hevs).
Qed.

Lemma cmd_play_issues_only_witness :
  EvCheckCall (ytdlp_cmd (py "some song"))
    ∈ new_events (init (Some 5))
        (snd (cmd_play Sample.calm
                (Sample.group_message 7 "/play  some   song ") (init (Some 5))))
  /\ play_may_issue (Sample.group_message 7 "/play  some   song ")
       (init (Some 5)) (EvCheckCall (ytdlp_cmd (py "some song"))).
Proof.
  assert (Hin : EvCheckCall (ytdlp_cmd (py "some song"))
                  ∈ new_events (init (Some 5))
                      (snd (cmd_play Sample.calm
                              (Sample.group_message 7 "/play  some   song ")
                              (init (Some 5))))).
  { vm_compute. do 4 apply list_elem_of_further. apply list_elem_of_here. }
  split; [exact Hin |].
  exact (cmd_play_issues_only Sample.calm _ _ _ Hin).
Defined.

(** X8. [cmd_skip] and [cmd_stop] never start a download, never look up
    the membership of the assistant and never edit a text. [cmd_skip]
    removes no file but the one at the head of the group's queue, streams
    nothing but the item behind it, and leaves the call only when the queue
    held exactly one item; [cmd_stop] removes only files of the group's
    queue and never joins or changes a stream. Both only act on the chat of
    the message. *)
Theorem skip_and_stop_issue_only (w : World) (m : Message) (s : St)
    (ev : event) :
  (ev ∈ new_events s (snd (cmd_skip w m s)) -> skip_may_issue m s ev)
  /\ (ev ∈ new_events s (snd (cmd_stop w m s)) -> stop_may_issue m s ev).
Proof.
  split.
  - destruct (cmd_skip_summary w m s) as (evs & op & -> & Hevs & _).
    cbn [snd]. rewrite new_events_after_op. intros Hin.
    by apply (proj1 (Forall_forall _ _) Hevs).
  - destruct (cmd_stop_summary w m s) as (evs & op & -> & Hevs & _).
    cbn [snd]. rewrite new_events_after_op. intros Hin.
    by apply (proj1 (Forall_forall _ _) Hevs).
Qed.

Lemma skip_and_stop_issue_only_witness :
  EvRemove (py "/tmp/tg_music/a.mp3")
    ∈ new_events Sample.two_queued
        (snd (cmd_skip Sample.calm (Sample.group_message 7 "/skip")
                Sample.two_queued))
  /\ skip_may_issue (Sample.group_message 7 "/skip") Sample.two_queued
       (EvRemove (py "/tmp/tg_music/a.mp3")).
Proof.
  assert (Hin : EvRemove (py "/tmp/tg_music/a.mp3")
                  ∈ new_events Sample.two_queued
                      (snd (cmd_skip Sample.calm
                              (Sample.group_message 7 "/skip")
                              Sample.two_queued))).
  { vm_compute. apply list_elem_of_here. }
  split; [exact Hin |].
  exact (proj1 (skip_and_stop_issue_only Sample.calm _ _ _) Hin).
Defined.

(** ** Join or change *)

(** X9. [ensure_join_and_play] raises exactly when the change of stream
    raised and the join raised too, and then with the error of the join:
    the error of the change is never seen. A join is attempted exactly when
    the change raised. Neither dictionary is written. *)
Theorem ensure_join_and_play_reports_the_join (w : World) (chat : Z)
    (p : str) (s : St) :
  let change := w_change_stream w (trace s ++ [EvGetChat chat]) chat p in
  let join :=
    w_join_group_call w (trace s ++ [EvGetChat chat; EvChangeStream chat p])
      chat p in
  (forall e, fst (ensure_join_and_play w chat p s) = Raise e
             <-> change <> None /\ join = Some e)
  /\ (EvJoinGroupCall chat p
        ∈ new_events s (snd (ensure_join_and_play w chat p s))
      <-> change <> None)
  /\ mem_queue (snd (ensure_join_and_play w chat p s)) = mem_queue s
  /\ mem_now (snd (ensure_join_and_play w chat p s)) = mem_now s.
Proof.
  intros change join. rewrite ensure_join_and_play_run.
  fold change. fold join.
  destruct change as [e0|]; cbn [fst snd]; rewrite new_events_add_events.
  - split; [| split; [| done]].
    + intros e. destruct join as [e1|]; split; try done.
      * intros [= ->]. by split.
      * by intros [_ [= ->]].
      * by intros [_ H].
    + split; [done |]. intros _.
      do 2 apply list_elem_of_further. apply list_elem_of_here.
  - split; [| split; [| done]].
    + intros e. split; [done | by intros [H _]].
    + split; [| done]. intros H.
      repeat (apply elem_of_cons in H as [H | H]; [discriminate H |]).
      by apply elem_of_nil in H.
Qed.

(** ** [play_next] *)

(** X10. Whether the call behind it succeeds or raises, [play_next] leaves
    the group's current item equal to the head of its stored queue ([None]
    for an empty or missing queue), writes nothing else, and changes no
    queue. On an empty queue it cannot raise: it issues one leave call,
    whose error is dropped. *)
Theorem play_next_sets_current_to_head (w : World) (chat : Z) (s : St) :
  mem_queue (snd (play_next w chat s)) = mem_queue s
  /\ mem_now (snd (play_next w chat s))
     = <[chat := head (get_queue s chat)]> (mem_now s)
  /\ get_now (snd (play_next w chat s)) chat
     = head (get_queue (snd (play_next w chat s)) chat)
  /\ (get_queue s chat = [] ->
      fst (play_next w chat s) = Ok tt
      /\ new_events s (snd (play_next w chat s)) = [EvLeaveGroupCall chat]).
Proof.
  destruct (play_next_summary w chat s) as (r & evs & Hrun & _).
  rewrite Hrun. cbn [snd fst apply_op].
  split; [done |]. split; [done |]. split.
  - rewrite get_now_add_events, get_queue_add_events.
    by autorewrite with mem.
  - intros Hq. rewrite play_next_run, Hq in Hrun.
    pose proof (f_equal fst Hrun) as Hr.
    pose proof (f_equal (fun x => trace (snd x)) Hrun) as Ht.
    cbn [fst snd] in Hr, Ht. split; [done |].
    apply new_events_trace.
    cbn [trace add_events set_now apply_op] in Ht |- *. done.
Qed.

(** ** Skip at the end of the queue *)

(** X11. In a group with nothing queued, be it that the group has no entry
    in [mem_queue] or an empty list, [cmd_skip] only says that there is no
    queue: no file is removed, no call is left, no entry is created. With
    exactly one item queued it removes that file, empties the queue, clears
    the current item, issues one leave call and says that the queue is
    empty; no stream is started. *)
Theorem skip_at_the_end_of_the_queue (w : World) (m : Message) (chat : Z)
    (s : St) (Hg : in_group m = Some chat) :
  (get_queue s chat = [] ->
   cmd_skip w m s = (Ok tt, add_event (EvReply m Text.no_queue) s))
  /\ (forall cur, get_queue s chat = [cur] ->
      exists s',
        cmd_skip w m s = (Ok tt, s')
        /\ mem_queue s' = <[chat := []]> (mem_queue s)
        /\ mem_now s' = <[chat := None]> (mem_now s)
        /\ new_events s s'
           = [EvRemove cur; EvLeaveGroupCall chat;
              EvReply m Text.stopped_queue_empty]).
Proof.
  split.
  - intros Hq. by rewrite cmd_skip_run, Hg, Hq.
  - intros cur Hq. rewrite cmd_skip_run, Hg, Hq. eexists. split; [done |].
    split; [done |]. split; [done |]. by apply new_events_trace.
Qed.

Lemma skip_at_the_end_of_the_queue_witness :
  in_group (Sample.group_message 7 "/skip") = Some 7
  /\ cmd_skip Sample.calm (Sample.group_message 7 "/skip") (init (Some 5))
     = (Ok tt,
        add_event (EvReply (Sample.group_message 7 "/skip") Text.no_queue)
          (init (Some 5))).
Proof.
  split; [reflexivity |].
  by apply (skip_at_the_end_of_the_queue Sample.calm
              (Sample.group_message 7 "/skip") 7 (init (Some 5)) eq_refl).
Defined.

(** ** Stop, twice *)

(** X12. Stopping a group that has just been stopped changes neither
    dictionary and removes no file: the second [cmd_stop] issues one leave
    call and the reply, nothing more. *)
Theorem stop_twice_removes_once (w : World) (m : Message) (chat : Z) (s : St)
    (Hg : in_group m = Some chat) :
  let s1 := snd (cmd_stop w m s) in
  let s2 := snd (cmd_stop w m s1) in
  mem_queue s2 = mem_queue s1
  /\ mem_now s2 = mem_now s1
  /\ new_events s1 s2
     = [EvLeaveGroupCall chat; EvReply m Text.stopped_cleared].
Proof.
  cbn zeta. rewrite !cmd_stop_run, Hg. cbn [snd].
  autorewrite with mem. cbn [fmap list_fmap app].
  split; [| split; [| by apply new_events_trace]].
  - cbn [mem_queue add_events set_now set_queue]. apply insert_insert_eq.
  - cbn [mem_now add_events set_now set_queue]. apply insert_insert_eq.
Qed.

Lemma stop_twice_removes_once_witness :
  in_group (Sample.group_message 7 "/stop") = Some 7
  /\ new_events
       (snd (cmd_stop Sample.calm (Sample.group_message 7 "/stop")
               Sample.two_queued))
       (snd (cmd_stop Sample.calm (Sample.group_message 7 "/stop")
               (snd (cmd_stop Sample.calm (Sample.group_message 7 "/stop")
                       Sample.two_queued))))
     = [EvLeaveGroupCall 7;
        EvReply (Sample.group_message 7 "/stop") Text.stopped_cleared].
Proof.
  split; [reflexivity |].
  by apply (stop_twice_removes_once Sample.calm
              (Sample.group_message 7 "/stop") 7 Sample.two_queued eq_refl).
Defined.

Lemma play_next_sets_current_to_head_witness :
  get_queue (init (Some 5)) 7 = []
  /\ fst (play_next Sample.calm 7 (init (Some 5))) = Ok tt.
Proof.
  split; [reflexivity |].
  by apply (play_next_sets_current_to_head Sample.calm 7 (init (Some 5))).
Defined.

(** ** Outside a group *)

Lemma in_group_none (m : Message) :
  in_group m = None
  <-> m_chat m = None
      \/ exists c, m_chat m = Some c
           /\ chat_type c <> py "group" /\ chat_type c <> py "supergroup".
Proof.
  unfold in_group. destruct (m_chat m) as [c|]; [| by split; [left |]].
  split.
  - intros H. right. exists c. split; [done |].
    repeat case_bool_decide; simpl in H; done.
  - intros [[=] | (c' & [= <-] & H1 & H2)].
    by rewrite !bool_decide_eq_false_2.
Qed.

(** X13. A message that does not come from a group or supergroup (a private
    chat, a channel, a message without chat) gets one reply from each of
    [cmd_play], [cmd_skip], [cmd_stop], [cmd_setup], [cmd_status] and
    [cmd_queue], and nothing else happens: the state is the one before
    with that reply recorded. *)
Theorem outside_a_group_only_a_reply (w : World) (m : Message) (s : St)
    (Hm : m_chat m = None
          \/ exists c, m_chat m = Some c
               /\ chat_type c <> py "group"
               /\ chat_type c <> py "supergroup") :
  cmd_play w m s = (Ok tt, add_event (EvReply m Text.not_group_play) s)
  /\ cmd_skip w m s = (Ok tt, add_event (EvReply m Text.not_group) s)
  /\ cmd_stop w m s = (Ok tt, add_event (EvReply m Text.not_group) s)
  /\ cmd_setup w m s = (Ok tt, add_event (EvReply m Text.not_group) s)
  /\ cmd_status w m s = (Ok tt, add_event (EvReply m Text.not_group) s)
  /\ cmd_queue w m s = (Ok tt, add_event (EvReply m Text.not_group) s).
Proof.
  apply in_group_none in Hm.
  rewrite cmd_play_unfold, cmd_skip_run, cmd_stop_run.
  unfold cmd_setup, cmd_status, cmd_queue. by rewrite Hm.
Qed.

Lemma outside_a_group_only_a_reply_witness :
  (exists c, m_chat {| m_chat := Some {| chat_id := 3;
                                         chat_type := py "private" |};
                       m_text := Some (py "/play song") |} = Some c
     /\ chat_type c <> py "group" /\ chat_type c <> py "supergroup")
  /\ cmd_play Sample.calm
       {| m_chat := Some {| chat_id := 3; chat_type := py "private" |};
          m_text := Some (py "/play song") |} (init (Some 5))
     = (Ok tt,
        add_event
          (EvReply {| m_chat := Some {| chat_id := 3;
                                        chat_type := py "private" |};
                      m_text := Some (py "/play song") |}
             Text.not_group_play) (init (Some 5))).
Proof.
  assert (H : exists c,
             m_chat {| m_chat := Some {| chat_id := 3;
                                         chat_type := py "private" |};
                       m_text := Some (py "/play song") |} = Some c
             /\ chat_type c <> py "group" /\ chat_type c <> py "supergroup")
    by (eexists; split; [reflexivity |]; split; by vm_compute).
  split; [exact H |].
  by apply (outside_a_group_only_a_reply Sample.calm _ (init (Some 5))
              (or_intror H)).
Defined.

(** ** No handler raises, no handler reaches another chat *)

Section Info.

Variable w : World.

Lemma cmd_status_run m s :
  cmd_status w m s =
  match in_group m with
  | None => (Ok tt, add_events [EvReply m Text.not_group] s)
  | Some chat =>
      match assistant_in_group w chat s with
      | (Ok present, s1) =>
          (Ok tt,
           add_events
             [EvReply m
                (let txt :=
                   InfoText.status
                     (if present then InfoText.status_yes
                      else InfoText.status_no)
                     (str_of_nat (length (get_queue s chat)))
                     (safe_basename (get_now s chat)) in
                 if negb present
                 then txt ++ InfoText.status_hint (ASSISTANT_LINK w)
                               (ASSISTANT_USERNAME w)
                 else txt)] s1)
      | (Raise e, s1) => (Raise e, s1)
      end
  end.
Proof.
  unfold cmd_status. destruct (in_group m) as [chat|]; [| done].
  unfold bind at 1.
  destruct (assistant_in_group_events w chat s) as [evs Hevs].
  destruct (assistant_in_group w chat s) as [[present|e] s1]; [| done].
  cbn [snd] in Hevs. subst s1. done.
Qed.

Lemma cmd_queue_run m s :
  cmd_queue w m s =
  match in_group m with
  | None => (Ok tt, add_events [EvReply m Text.not_group] s)
  | Some chat =>
      (Ok tt,
       add_events
         [EvReply m
            match get_queue s chat with
            | [] => Text.no_queue
            | q => str_join [10%N] (InfoText.queue_header :: queue_lines q)
            end] s)
  end.
Proof.
  unfold cmd_queue. destruct (in_group m) as [chat|]; [| done].
  unfold bind, get_state. by destruct (get_queue s chat).
Qed.

End Info.

(** X14. No error of a lookup, of the resolver, of the voice client or of
    the file system gets out of a handler: whatever these calls answer,
    [cmd_play], [cmd_skip], [cmd_stop], [cmd_start], [cmd_setup],
    [cmd_status] and [cmd_queue] return normally (sending the texts is
    taken to succeed). *)
Theorem handlers_return_normally (w : World) (m : Message) (s : St) :
  fst (cmd_play w m s) = Ok tt
  /\ fst (cmd_skip w m s) = Ok tt
  /\ fst (cmd_stop w m s) = Ok tt
  /\ fst (cmd_start w m s) = Ok tt
  /\ fst (cmd_setup w m s) = Ok tt
  /\ fst (cmd_status w m s) = Ok tt
  /\ fst (cmd_queue w m s) = Ok tt.
Proof.
  destruct (cmd_play_summary w m s) as (? & ? & -> & _).
  destruct (cmd_skip_summary w m s) as (? & ? & -> & _).
  destruct (cmd_stop_summary w m s) as (? & ? & -> & _).
  rewrite cmd_status_run, cmd_queue_run. unfold cmd_setup.
  repeat split; try done.
  - by destruct (in_group m).
  - destruct (in_group m) as [chat|]; [| done].
    rewrite assistant_in_group_run.
    by destruct (ASSISTANT_ID s) as [[| |]|].
  - by destruct (in_group m).
Qed.

(** X15. A play, skip or stop request of one chat leaves the entries of
    every other chat in [mem_queue] and [mem_now] as they are, absent
    entries included. *)
Theorem other_chats_are_untouched (w : World) (m : Message) (s : St)
    (other : Z) (Hother : in_group m <> Some other) :
  (mem_queue (snd (cmd_play w m s)) !! other = mem_queue s !! other
   /\ mem_now (snd (cmd_play w m s)) !! other = mem_now s !! other)
  /\ (mem_queue (snd (cmd_skip w m s)) !! other = mem_queue s !! other
      /\ mem_now (snd (cmd_skip w m s)) !! other = mem_now s !! other)
  /\ (mem_queue (snd (cmd_stop w m s)) !! other = mem_queue s !! other
      /\ mem_now (snd (cmd_stop w m s)) !! other = mem_now s !! other).
Proof.
  destruct (cmd_play_summary w m s) as (e1 & o1 & -> & _ & H1).
  destruct (cmd_skip_summary w m s) as (e2 & o2 & -> & _ & H2).
  destruct (cmd_stop_summary w m s) as (e3 & o3 & -> & _ & H3).
  cbn [snd mem_queue mem_now add_events].
  repeat split; apply lookup_apply_op_other.
  1,2: destruct H1 as [-> | (c & p & -> & Hc & _)]; simpl; congruence.
  1,2: destruct H2 as [-> | (c & -> & Hc)]; simpl; congruence.
  1,2: destruct H3 as [-> | (c & -> & Hc)]; simpl; congruence.
Qed.

Lemma other_chats_are_untouched_witness :
  in_group (Sample.group_message 7 "/stop") <> Some 8
  /\ mem_queue (snd (cmd_stop Sample.calm (Sample.group_message 7 "/stop")
                       Sample.two_queued)) !! 8
     = mem_queue Sample.two_queued !! 8.
Proof.
  assert (H : in_group (Sample.group_message 7 "/stop") <> Some 8)
    by (by vm_compute).
  split; [exact H |].
  by apply (other_chats_are_untouched Sample.calm
              (Sample.group_message 7 "/stop") Sample.two_queued 8 H).
Defined.

(** ** Without an assistant id *)

Lemma assistant_id_apply_op (op : queue_op) (s : St) :
  ASSISTANT_ID (apply_op op s) = ASSISTANT_ID s.
Proof.
  destruct op as [|c p|c|c|c]; simpl; try done; by destruct (get_queue s c).
Qed.

Lemma apply_op_keeps_empty (op : queue_op) (s : St) :
  (forall p c, op <> QEnqueue c p) ->
  (forall chat, get_queue s chat = [] /\ get_now s chat = None) ->
  forall chat, get_queue (apply_op op s) chat = []
               /\ get_now (apply_op op s) chat = None.
Proof.
  intros Hop Hs chat. destruct (Hs chat) as [Hq Hn].
  destruct op as [|c p|c|c|c]; simpl; try done.
  - by destruct (Hop p c).
  - by rewrite (proj1 (Hs c)).
  - destruct (decide (c = chat)) as [<- | Hne]; by autorewrite with mem.
  - rewrite (proj1 (Hs c)). simpl.
    destruct (decide (c = chat)) as [<- | Hne]; by autorewrite with mem.
Qed.

(** X16. When startup could not learn the assistant's id ([ASSISTANT_ID] is
    [None], or zero), no sequence of requests ever queues or plays
    anything: every queue stays empty, there is never a current item, and
    the only calls ever issued are replies to the chat and leave calls; no
    lookup, no download, no stream, no removal. *)
Theorem without_assistant_id_nothing_plays (w : World) (aid : option Z)
    (rs : list request) (Hid : aid = None \/ aid = Some 0) :
  (forall chat,
     get_queue (run w rs (init aid)) chat = []
     /\ get_now (run w rs (init aid)) chat = None)
  /\ (forall ev, ev ∈ trace (run w rs (init aid)) ->
        match ev with
        | EvReply _ _ | EvLeaveGroupCall _ => True
        | _ => False
        end).
Proof.
  set (quiet := fun ev => match ev with
                          | EvReply _ _ | EvLeaveGroupCall _ => True
                          | _ => False
                          end).
  assert (Hinv : forall rs s,
             ~ has_assistant_id s ->
             (forall chat, get_queue s chat = [] /\ get_now s chat = None) ->
             Forall quiet (trace s) ->
             (forall chat, get_queue (run w rs s) chat = []
                           /\ get_now (run w rs s) chat = None)
             /\ Forall quiet (trace (run w rs s))).
  { clear rs. induction rs as [|r rs IH]; intros s Hno Hempty Hquiet; [done |].
    simpl.
    assert (Hstep : exists evs op,
               serve w s r = add_events evs (apply_op op s)
               /\ Forall quiet evs /\ forall p c, op <> QEnqueue c p).
    { unfold serve. destruct r as [m|m|m|chat]; simpl.
      - destruct (cmd_play_summary w m s) as (evs & op & -> & Hevs & Hop).
        exists evs, op. split; [done |]. split.
        + eapply Forall_impl; [exact Hevs |].
          intros [] H; simpl in *; try done; by destruct H.
        + intros p c ->. by destruct Hop as [| (? & ? & _ & _ & ? & _)].
      - destruct (cmd_skip_summary w m s) as (evs & op & -> & Hevs & Hop).
        exists evs, op. split; [done |]. split.
        + eapply Forall_impl; [exact Hevs |].
          intros [] H; simpl in *; try done.
          * destruct H as [_ H]. rewrite (proj1 (Hempty _)) in H.
            simpl in H. lia.
          * destruct H as [_ H]. by rewrite (proj1 (Hempty _)) in H.
          * destruct H as [_ H]. by rewrite (proj1 (Hempty _)) in H.
          * destruct H as (c & _ & H). by rewrite (proj1 (Hempty _)) in H.
        + intros p c ->. by destruct Hop as [| (? & ? & _)].
      - destruct (cmd_stop_summary w m s) as (evs & op & -> & Hevs & Hop).
        exists evs, op. split; [done |]. split.
        + eapply Forall_impl; [exact Hevs |].
          intros [] H; simpl in *; try done.
          destruct H as (c & _ & H). rewrite (proj1 (Hempty _)) in H.
          by apply elem_of_nil in H.
        + intros p c ->. by destruct Hop as [| (? & ? & _)].
      - destruct (play_next_summary w chat s) as (res & evs & -> & Hevs).
        exists evs, (QAdvance chat). split; [done |]. split; [| done].
        eapply Forall_impl; [exact Hevs |].
        intros [] H; simpl in *; try done.
        + destruct H as [_ H]. by destruct (H (proj1 (Hempty _))).
        + destruct H as [_ H]. by rewrite (proj1 (Hempty _)) in H.
        + destruct H as [_ H]. by rewrite (proj1 (Hempty _)) in H. }
    destruct Hstep as (evs & op & -> & Hevs & Hop).
    apply IH.
    - unfold has_assistant_id in *. simpl. by rewrite assistant_id_apply_op.
    - intros chat. rewrite get_queue_add_events, get_now_add_events.
      by apply apply_op_keeps_empty.
    - simpl. rewrite trace_apply_op. by apply Forall_app. }
  destruct (Hinv rs (init aid)) as [Hempty Hquiet].
  - unfold has_assistant_id. simpl. destruct Hid as [-> | ->]; by intros [].
  - intros chat. unfold get_queue, get_now. simpl. by rewrite !lookup_empty.
  - constructor.
  - split; [done |]. intros ev Hev.
    by apply (proj1 (Forall_forall _ _) Hquiet).
Qed.

Lemma without_assistant_id_nothing_plays_witness :
  (@None Z = None \/ @None Z = Some 0)
  /\ get_queue (run Sample.calm Sample.three_songs (init None)) 7 = [].
Proof.
  split; [by left |].
  by apply (without_assistant_id_nothing_plays Sample.calm None
              Sample.three_songs (or_introl eq_refl)).
Defined.

(** ** The queue listing and the status *)

Lemma queue_lines_from_lookup (q : list str) :
  forall (index i : nat),
    queue_lines_from index q !! i
    = (fun p =>
         InfoText.queue_line
           (if (index + i =? 1)%nat then InfoText.prefix_first
            else InfoText.prefix_other)
           (str_of_nat (index + i)) (safe_basename (Some p)))
        <$> q !! i.
Proof.
  induction q as [|p q IH]; intros index i; [done |].
  destruct i as [|i]; simpl.
  - by rewrite Nat.add_0_r.
  - rewrite IH. by rewrite Nat.add_succ_r.
Qed.

Lemma queue_lines_from_length (q : list str) (index : nat) :
  length (queue_lines_from index q) = length q.
Proof.
  revert index. induction q as [|p q IH]; intros index; [done |].
  simpl. by rewrite IH.
Qed.

(** X17. In a group with something queued, [cmd_queue] answers with the
    header and one line for each of the first twenty items of the stored
    queue, in order: line [i] carries the number [i], counted from one, and
    the display name of item [i]; items beyond the twentieth are not shown.
    The first line, and only it, carries the playing mark, and the item it
    names is the group's current item. The state is not changed. *)
Theorem queue_lists_the_first_twenty (w : World) (s : St) (m : Message)
    (chat : Z)
    (Hs : reachable w s) (Hg : in_group m = Some chat)
    (Hq : get_queue s chat <> []) :
  exists lines,
    cmd_queue w m s
    = (Ok tt,
       add_event
         (EvReply m (str_join [10%N] (InfoText.queue_header :: lines))) s)
    /\ length lines = min 20 (length (get_queue s chat))
    /\ (forall i p,
          (i < 20)%nat -> get_queue s chat !! i = Some p ->
          lines !! i
          = Some (InfoText.queue_line
                    (if (i =? 0)%nat then InfoText.prefix_first
                     else InfoText.prefix_other)
                    (str_of_nat (S i)) (safe_basename (Some p))))
    /\ head lines
       = Some (InfoText.queue_line InfoText.prefix_first (py "1")
                 (safe_basename (get_now s chat))).
Proof.
  exists (queue_lines (get_queue s chat)).
  rewrite cmd_queue_run, Hg.
  assert (Hlookup : forall i p,
             (i < 20)%nat -> get_queue s chat !! i = Some p ->
             queue_lines (get_queue s chat) !! i
             = Some (InfoText.queue_line
                       (if (i =? 0)%nat then InfoText.prefix_first
                        else InfoText.prefix_other)
                       (str_of_nat (S i)) (safe_basename (Some p)))).
  { intros i p Hi Hp. unfold queue_lines.
    rewrite queue_lines_from_lookup, lookup_take_lt, Hp by done. done. }
  split; [by destruct (get_queue s chat) |].
  split; [unfold queue_lines; by rewrite queue_lines_from_length, length_take |].
  split; [exact Hlookup |].
  rewrite (reachable_now_is_head w s Hs chat).
  destruct (get_queue s chat) as [|p q] eqn:E; [done |].
  rewrite head_lookup.
  rewrite (Hlookup 0%nat p); [done | lia | done].
Qed.

Lemma queue_lists_the_first_twenty_witness :
  reachable Sample.calm Sample.two_queued
  /\ in_group (Sample.group_message 7 "/queue") = Some 7
  /\ get_queue Sample.two_queued 7 <> []
  /\ exists lines,
       cmd_queue Sample.calm (Sample.group_message 7 "/queue")
         Sample.two_queued
       = (Ok tt,
          add_event
            (EvReply (Sample.group_message 7 "/queue")
               (str_join [10%N] (InfoText.queue_header :: lines)))
            Sample.two_queued)
       /\ length lines = 2%nat.
Proof.
  assert (Hs : reachable Sample.calm Sample.two_queued)
    by (by eexists (Some 5), _).
  assert (Hq : get_queue Sample.two_queued 7 <> []) by (by vm_compute).
  split; [exact Hs |]. split; [reflexivity |]. split; [exact Hq |].
  destruct (queue_lists_the_first_twenty Sample.calm Sample.two_queued
              (Sample.group_message 7 "/queue") 7 Hs eq_refl Hq)
    as (lines & Hrun & Hlen & _).
  exists lines. split; [exact Hrun |]. rewrite Hlen. by vm_compute.
Defined.

(** X18. [cmd_start], [cmd_setup], [cmd_status] and [cmd_queue] only read:
    both dictionaries and the assistant id are left as they were; the only
    calls they issue are replies to the message at hand and, for
    [cmd_status] in a group, the two lookups of the presence check for
    that chat. No download, no call on the voice client, no removal. *)
Theorem info_handlers_only_read (w : World) (m : Message) (s : St) :
  let reads (result : result unit * St) :=
    mem_queue (snd result) = mem_queue s
    /\ mem_now (snd result) = mem_now s
    /\ ASSISTANT_ID (snd result) = ASSISTANT_ID s
    /\ forall ev, ev ∈ new_events s (snd result) ->
         match ev with
         | EvReply m' _ => m' = m
         | EvGetChat c | EvGetChatMember c _ => in_group m = Some c
         | _ => False
         end in
  reads (cmd_start w m s) /\ reads (cmd_setup w m s)
  /\ reads (cmd_status w m s) /\ reads (cmd_queue w m s).
Proof.
  set (allowed := fun ev => match ev with
                            | EvReply m' _ => m' = m
                            | EvGetChat c | EvGetChatMember c _ =>
                                in_group m = Some c
                            | _ => False
                            end).
  assert (Hform : forall (r : result unit * St) evs,
             snd r = add_events evs s -> Forall allowed evs ->
             mem_queue (snd r) = mem_queue s
             /\ mem_now (snd r) = mem_now s
             /\ ASSISTANT_ID (snd r) = ASSISTANT_ID s
             /\ forall ev, ev ∈ new_events s (snd r) -> allowed ev).
  { intros r evs -> Hevs. repeat split; try done.
    rewrite new_events_add_events. by apply Forall_forall. }
  cbn zeta. rewrite cmd_status_run, cmd_queue_run. unfold cmd_start, cmd_setup.
  split; [by eapply (Hform _ [_]); [| each_event] |].
  split; [destruct (in_group m); by eapply (Hform _ [_]); [| each_event] |].
  split; [| destruct (in_group m); by eapply (Hform _ [_]); [| each_event]].
  destruct (in_group m) as [chat|] eqn:Hg;
    [| by eapply (Hform _ [_]); [| each_event]].
  rewrite assistant_in_group_run.
  destruct (ASSISTANT_ID s) as [[|aid|aid]|].
  1,4: by eapply (Hform _ [_]); [| each_event].
  all: cbv iota beta; norm_state.
  all: eapply (Hform _ [_; _; _]); [reflexivity |]; subst allowed.
  all: by each_event.
Qed.

(** ** What the resolver returns, and what is ever removed *)

Lemma join_keeps_entry (a b : str) : exists front, OsPath.join a b = front ++ b.
Proof.
  unfold OsPath.join. destruct (PyStr.startswith b (py "/")); [by exists [] |].
  destruct (bool_decide (a = []) || PyStr.endswith a (py "/"));
    [by exists a |].
  exists (a ++ py "/"). by rewrite <- app_assoc.
Qed.

Lemma join_of_plain_entry (f : str) :
  47%N ∉ f -> OsPath.join tg_music_dir f = py "/tmp/tg_music/" ++ f.
Proof.
  intros Hplain. unfold OsPath.join.
  assert (Hstart : PyStr.startswith f (py "/") = false).
  { change (py "/") with [47%N]. destruct f as [|c f]; [done |].
    apply not_elem_of_cons in Hplain as [Hc _]. cbn [PyStr.startswith].
    by destruct (N.eqb_spec 47 c) as [<- | _]. }
  assert (Hend : bool_decide (tg_music_dir = [])
                 || PyStr.endswith tg_music_dir (py "/") = false)
    by (vm_compute; reflexivity).
  by rewrite Hstart, Hend.
Qed.

Lemma resolved_is_listed (w : World) (p : str) :
  resolved w p ->
  exists h f,
    f ∈ w_listdir w h tg_music_dir
    /\ PyStr.endswith f (py ".mp3") = true
    /\ p = OsPath.join tg_music_dir f.
Proof.
  intros (q & s & H). rewrite ytdlp_to_mp3_run in H.
  destruct (w_makedirs w _ _); [done |].
  destruct (w_check_call w _ _); [done |]. cbn zeta in H. cbn [fst] in H.
  destruct (w_listdir_error w _ _); [done |].
  destruct (sort_key_error w _ _); [done |].
  unfold mp3_files in H.
  match type of H with
  | context [sort_desc ?k ?l] => pose proof (sort_desc_head k l) as Hsort
  end.
  destruct (sort_desc _ _) as [|f fs]; [done |].
  destruct Hsort as [Hin _]. injection H as <-.
  apply list_elem_of_In, filter_In in Hin as [Hin Hmp3].
  eexists _, f. split; [by apply list_elem_of_In |]. by split.
Qed.

(** X19. A path that the resolver returns is always the join of
    [/tmp/tg_music] with a name of the directory listing that ends in
    [.mp3]; the path itself ends in [.mp3], and lies directly in
    [/tmp/tg_music] when the name holds no slash. The resolver writes
    neither dictionary. *)
Theorem resolved_path_is_a_listed_mp3 (w : World) (q : str) (s : St) (p : str)
    (Hok : fst (ytdlp_to_mp3 w q s) = Ok p) :
  (exists h f,
     f ∈ w_listdir w h tg_music_dir
     /\ PyStr.endswith f (py ".mp3") = true
     /\ p = OsPath.join tg_music_dir f
     /\ (47%N ∉ f -> p = py "/tmp/tg_music/" ++ f))
  /\ PyStr.endswith p (py ".mp3") = true
  /\ mem_queue (snd (ytdlp_to_mp3 w q s)) = mem_queue s
  /\ mem_now (snd (ytdlp_to_mp3 w q s)) = mem_now s.
Proof.
  destruct (resolved_is_listed w p) as (h & f & Hin & Hmp3 & ->);
    [by exists q, s |].
  split; [| split].
  - exists h, f. repeat split; try done. apply join_of_plain_entry.
  - apply endswith_spec in Hmp3 as [front ->].
    destruct (join_keeps_entry tg_music_dir (front ++ py ".mp3"))
      as [pre ->].
    apply endswith_spec. exists (pre ++ front). by rewrite <- app_assoc.
  - destruct (ytdlp_to_mp3_events w q s) as (evs & -> & _). done.
Qed.

Lemma resolved_path_is_a_listed_mp3_witness :
  fst (ytdlp_to_mp3 Sample.calm (py "song") (init (Some 5)))
  = Ok (py "/tmp/tg_music/a.mp3")
  /\ PyStr.endswith (py "/tmp/tg_music/a.mp3") (py ".mp3") = true.
Proof.
  split; [reflexivity |].
  by apply (resolved_path_is_a_listed_mp3 Sample.calm (py "song")
              (init (Some 5)) (py "/tmp/tg_music/a.mp3") eq_refl).
Defined.

Lemma elem_of_queue_apply_op (op : queue_op) (s : St) (chat : Z) (p : str) :
  p ∈ get_queue (apply_op op s) chat ->
  p ∈ get_queue s chat \/ exists c, op = QEnqueue c p.
Proof.
  destruct op as [|c x|c|c|c]; simpl; try (by left).
  - destruct (decide (c = chat)) as [<- | Hne].
    + destruct (get_queue s c) as [|a q] eqn:E; autorewrite with mem.
      * intros ->%list_elem_of_singleton. right. by exists c.
      * change (a :: q ++ [x]) with ((a :: q) ++ [x]).
        rewrite elem_of_app, list_elem_of_singleton.
        intros [H | ->]; [by left | right; by exists c].
    + destruct (get_queue s c); autorewrite with mem; by left.
  - destruct (get_queue s c) as [|a q] eqn:E; [by left |].
    destruct (decide (c = chat)) as [<- | Hne]; autorewrite with mem;
      [| by left].
    rewrite ?E. intros H. left. by apply list_elem_of_further.
  - destruct (decide (c = chat)) as [<- | Hne]; autorewrite with mem;
      [| by left].
    by intros H%elem_of_nil.
Qed.

Lemma serve_removes_queued (w : World) (r : request) (s : St) :
  exists evs op,
    serve w s r = add_events evs (apply_op op s)
    /\ (forall p, EvRemove p ∈ evs -> exists c, p ∈ get_queue s c)
    /\ (forall c p, op = QEnqueue c p -> resolved w p).
Proof.
  unfold serve. destruct r as [m|m|m|chat]; simpl.
  - destruct (cmd_play_summary w m s) as (evs & op & -> & Hevs & Hop).
    exists evs, op. split; [done |]. split.
    + intros p Hp. by apply (proj1 (Forall_forall _ _) Hevs) in Hp.
    + intros c p ->. by destruct Hop as [| (? & ? & [= <- <-] & _ & _ & ?)].
  - destruct (cmd_skip_summary w m s) as (evs & op & -> & Hevs & Hop).
    exists evs, op. split; [done |]. split.
    + intros p Hp. apply (proj1 (Forall_forall _ _) Hevs) in Hp.
      destruct Hp as (c & _ & Hp). exists c.
      destruct (get_queue s c); simplify_eq/=. by left.
    + intros c p ->. by destruct Hop as [| (? & ? & _)].
  - destruct (cmd_stop_summary w m s) as (evs & op & -> & Hevs & Hop).
    exists evs, op. split; [done |]. split.
    + intros p Hp. apply (proj1 (Forall_forall _ _) Hevs) in Hp.
      destruct Hp as (c & _ & Hp). by exists c.
    + intros c p ->. by destruct Hop as [| (? & ? & _)].
  - destruct (play_next_summary w chat s) as (res & evs & -> & Hevs).
    exists evs, (QAdvance chat). split; [done |]. split; [| done].
    intros p Hp. by apply (proj1 (Forall_forall _ _) Hevs) in Hp.
Qed.

(** X20. Whatever is requested, in whatever order, the only files the
    process ever asks to remove are paths the resolver returned: each is
    the join of [/tmp/tg_music] with a name that a listing of that
    directory showed and that ends in [.mp3]; it lies directly in
    [/tmp/tg_music] when that name holds no slash. *)
Theorem only_listed_mp3_files_are_removed (w : World) (aid : option Z)
    (rs : list request) (p : str)
    (Hremoved : EvRemove p ∈ trace (run w rs (init aid))) :
  exists h f,
    f ∈ w_listdir w h tg_music_dir
    /\ PyStr.endswith f (py ".mp3") = true
    /\ p = OsPath.join tg_music_dir f
    /\ (47%N ∉ f -> p = py "/tmp/tg_music/" ++ f).
Proof.
  assert (Hinv : forall rs s,
             (forall c x, x ∈ get_queue s c -> resolved w x) ->
             (forall x, EvRemove x ∈ trace s -> resolved w x) ->
             forall x, EvRemove x ∈ trace (run w rs s) -> resolved w x).
  { clear. induction rs as [|r rs IH]; intros s Hq Ht; [done |]. simpl.
    destruct (serve_removes_queued w r s) as (evs & op & -> & Hevs & Hop).
    apply IH.
    - intros c x. rewrite get_queue_add_events.
      intros [H | [c' ->]]%elem_of_queue_apply_op; [by apply (Hq c) |].
      by apply (Hop c').
    - intros x. simpl. rewrite trace_apply_op, elem_of_app.
      intros [H | H]; [by apply Ht |].
      destruct (Hevs x H) as [c Hc]. by apply (Hq c). }
  destruct (resolved_is_listed w p) as (h & f & Hin & Hmp3 & ->).
  - apply (Hinv rs (init aid)); [| | done].
    + intros c x. unfold get_queue. simpl. rewrite lookup_empty.
      by intros H%elem_of_nil.
    + by intros x H%elem_of_nil.
  - exists h, f. repeat split; try done. apply join_of_plain_entry.
Qed.

Lemma only_listed_mp3_files_are_removed_witness :
  EvRemove (py "/tmp/tg_music/a.mp3")
    ∈ trace (run Sample.calm Sample.three_songs (init (Some 5)))
  /\ exists h f,
       f ∈ w_listdir Sample.calm h tg_music_dir
       /\ py "/tmp/tg_music/a.mp3" = OsPath.join tg_music_dir f.
Proof.
  assert (Hin : EvRemove (py "/tmp/tg_music/a.mp3")
                  ∈ trace (run Sample.calm Sample.three_songs
                             (init (Some 5)))).
  { vm_compute. do 16 apply list_elem_of_further. apply list_elem_of_here. }
  split; [exact Hin |].
  destruct (only_listed_mp3_files_are_removed Sample.calm (Some 5)
              Sample.three_songs _ Hin) as (h & f & Hf & _ & Hp & _).
  by exists h, f.
Defined.

(** ** The assistant's user name *)

Lemma strip_of_at (x : str) :
  (forall f c, x = f ++ [c] -> PyStr.isspace c = false) ->
  PyStr.strip (64%N :: x) = 64%N :: x.
Proof.
  intros Hlast. apply strip_fixed.
  - by intros c r [= <- _].
  - intros f c Hf. destruct x as [|a x].
    + change [64%N] with ([] ++ [64%N]) in Hf.
      by apply app_inj_tail in Hf as [_ <-].
    + destruct (exists_last (l := a :: x)) as (f' & c' & Hx); [done |].
      rewrite Hx in Hf.
      change (64%N :: f' ++ [c']) with ((64%N :: f') ++ [c']) in Hf.
      apply app_inj_tail in Hf as [_ <-]. by apply (Hlast f' c').
Qed.

Lemma assistant_username_cases (env : option str) :
  let name := PyStr.strip (default (py "@BikaAssistant") env) in
  (exists rest, name = 64%N :: rest /\ assistant_username_of env = name)
  \/ (head name <> Some 64%N /\ assistant_username_of env = 64%N :: name).
Proof.
  intros name. unfold assistant_username_of. fold name.
  change (py "@") with [64%N]. destruct name as [|c rest]; [by right |].
  cbn [PyStr.startswith]. destruct (N.eqb_spec 64 c) as [<- | Hc].
  - left. by exists rest.
  - right. split; [| done]. simpl. congruence.
Qed.

(** X21. Whatever the environment holds for [ASSISTANT_USERNAME] (nothing,
    blanks, a name with or without the at-sign), the user name the process
    works with starts with an at-sign and the link is [https://t.me/]
    followed by what comes after that sign. Feeding the result back gives
    the same name, and a name given without the at-sign gives the same
    result as that name given with it. *)
Theorem assistant_username_starts_with_at (env : option str) :
  (exists rest,
     assistant_username_of env = 64%N :: rest
     /\ forall w, ASSISTANT_USERNAME w = assistant_username_of env ->
                  ASSISTANT_LINK w = py "https://t.me/" ++ rest)
  /\ assistant_username_of (Some (assistant_username_of env))
     = assistant_username_of env
  /\ (forall name,
        head (PyStr.strip name) <> Some 64%N ->
        assistant_username_of (Some (64%N :: PyStr.strip name))
        = assistant_username_of (Some name)).
Proof.
  assert (Hlast : forall raw f c,
             PyStr.strip raw = f ++ [c] -> PyStr.isspace c = false).
  { intros raw f c. by destruct (strip_spec raw) as (_ & _ & _ & _ & _ & H);
      apply H. }
  assert (Hat : forall x,
             (forall f c, x = f ++ [c] -> PyStr.isspace c = false) ->
             assistant_username_of (Some (64%N :: x)) = 64%N :: x).
  { intros x Hx. unfold assistant_username_of.
    change (default (py "@BikaAssistant") (Some (64%N :: x)))
      with (64%N :: x).
    rewrite strip_of_at by done. change (py "@") with [64%N].
    cbn [PyStr.startswith]. by rewrite N.eqb_refl. }
  split; [| split].
  - destruct (assistant_username_cases env)
      as [(rest & Hname & Hu) | (_ & Hu)]; rewrite Hu, ?Hname;
      eexists; (split; [done |]);
      intros w Hw; unfold ASSISTANT_LINK; by rewrite Hw.
  - destruct (assistant_username_cases env)
      as [(rest & Hname & ->) | (_ & ->)].
    + rewrite Hname. apply Hat. intros f c Hf.
      apply (Hlast (default (py "@BikaAssistant") env) (64%N :: f) c).
      rewrite Hname, Hf. done.
    + apply Hat. apply Hlast.
  - intros name Hhead. rewrite Hat by apply Hlast.
    destruct (assistant_username_cases (Some name))
      as [(rest & Hname & _) | (_ & ->)]; [| done].
    change (default (py "@BikaAssistant") (Some name)) with name in Hname.
    by rewrite Hname in Hhead.
Qed.

Lemma assistant_username_starts_with_at_witness :
  head (PyStr.strip (py " BikaAssistant ")) <> Some 64%N
  /\ assistant_username_of (Some (64%N :: PyStr.strip (py " BikaAssistant ")))
     = assistant_username_of (Some (py " BikaAssistant ")).
Proof.
  assert (H : head (PyStr.strip (py " BikaAssistant ")) <> Some 64%N)
    by (by vm_compute).
  split; [exact H |].
  exact (proj2 (proj2 (assistant_username_starts_with_at None))
           (py " BikaAssistant ") H).
Defined.
